(** * Reactions and tag aggregation of the memo service

    A shallow embedding of [server/router/api/v1/reaction_service.go]
    (the handlers [ListMemoReactions], [UpsertMemoReaction],
    [DeleteMemoReaction] and [convertReactionFromStore]) together with a
    model of the tag listing exercised by
    [server/router/api/v1/test/user_service_tags_test.go].

    The handlers thread an explicit world (store, log, webhook calls);
    every collaborator that lives outside the handler file (the store, the
    resource-name helpers, the webhook dispatcher) is a field of the
    [Service] interface, so the theorems hold for every implementation. *)

From Stdlib Require Import ZArith List String Ascii Bool Lia.
From Stdlib Require Import DecimalString Permutation Sorted.
From Stdlib Require DecimalZ DecimalPos.
From Stdlib Require Import Floats.SpecFloat.
Import ListNotations.

Local Open Scope string_scope.
Local Open Scope Z_scope.

(** ** Go values used by the handlers *)

(** A Go [error] value is represented by the text of its [Error()] method. *)
Definition GoError := string.

(** A Go call returning [(T, error)]: the value when [err == nil], the error
    otherwise. *)
Definition GoResult (T : Type) : Type := (T + GoError)%type.

(** [fmt.Sprintf("%d", n)] on an integer. *)
Definition formatInt (n : Z) : string := NilZero.string_of_int (Z.to_int n).

(** The gRPC status codes ([google.golang.org/grpc/codes]) that a unary
    handler of this service can reach, plus [NotFound], which the delete
    handler deliberately avoids. *)
Module codes.
Inductive Code : Set :=
| OK | InvalidArgument | NotFound | PermissionDenied | Unauthenticated | Internal.
End codes.

Module status.
Record Status : Set := Errorf { Code : codes.Code; Message : string }.
End status.

(** What a handler call ends in: a response, a gRPC status error, or a Go
    run-time panic (a nil pointer dereference). *)
Inductive Outcome (T : Type) : Type :=
| Return (v : T)
| Error (s : status.Status)
| Panic.
Arguments Return {T} v.
Arguments Error {T} s.
Arguments Panic {T}.

(** ** Store records ([github.com/usememos/memos/store]) *)
Module store.
Inductive Role : Set := RoleHost | RoleAdmin | RoleUser.

Record User : Set := { User_ID : Z; User_Role : Role }.

Inductive Visibility : Set := Private | Protected | Public.

Record Memo : Set := {
  Memo_ID : Z;
  Memo_UID : string;
  Memo_CreatorID : Z;
  Memo_Content : string;
  Memo_Visibility : Visibility;
  Memo_Tags : list string        (* Payload.Tags *)
}.

Record Reaction : Set := {
  ID : Z;
  CreatedTs : Z;
  CreatorID : Z;
  ContentID : string;
  ReactionType : string
}.

(** Pointer fields of the Go find structs are options: [None] is nil. *)
Record FindReaction : Set := {
  Find_ID : option Z;
  Find_CreatorID : option Z;
  Find_ContentID : option string;
  Find_ReactionType : option string
}.

Record DeleteReaction : Set := { Delete_ID : Z }.

Record FindMemo : Set := { FindMemo_ID : option Z; FindMemo_UID : option string }.

Record FindAttachment : Set := { FindAttachment_MemoID : option Z }.
End store.

(** ** API messages ([proto/gen/api/v1]) *)
Module v1pb.
(** [timestamppb.Timestamp] *)
Record Timestamp : Set := { Seconds : Z; Nanos : Z }.

Record Reaction : Set := {
  Name : string;
  Creator : string;
  ContentId : string;
  ReactionType : string;
  CreateTime : Timestamp
}.

Record ListMemoReactionsRequest : Set := { ListReq_Name : string }.

Record ListMemoReactionsResponse : Set := { Reactions : list Reaction }.

(** [Reaction] is a pointer field: [None] is a nil message. *)
Record UpsertMemoReactionRequest : Set := {
  UpsertReq_Name : string;
  UpsertReq_Reaction : option Reaction
}.

Record DeleteMemoReactionRequest : Set := { DeleteReq_Name : string }.

(** [emptypb.Empty] *)
Inductive Empty : Set := mkEmpty.
End v1pb.

(** [timestamppb.New(time.Unix(sec, 0))] *)
Definition timestamppb_New_Unix (sec : Z) : v1pb.Timestamp :=
  {| v1pb.Seconds := sec; v1pb.Nanos := 0 |}.

(** ** The collaborators of the handlers

    Everything the handler file calls but does not define.  Reads are
    functions of the store state; the two writes return the new state.
    [Store_UpsertReaction] returns a non-nil record when it returns no
    error. *)
Class Service : Type := {
  StoreState : Type;
  Context : Type;
  Attachment : Type;
  MemoMessage : Type;                      (* v1pb.Memo *)
  ReactionNamePrefix : string;
  UserNamePrefix : string;
  fetchCurrentUser : StoreState -> Context -> GoResult (option store.User);
  isSuperUser : store.User -> bool;
  ExtractMemoUIDFromName : string -> GoResult string;
  ExtractMemoReactionIDFromName : string -> GoResult (string * Z);
  Store_ListReactions :
    StoreState -> Context -> store.FindReaction -> GoResult (list store.Reaction);
  Store_GetReaction :
    StoreState -> Context -> store.FindReaction -> GoResult (option store.Reaction);
  Store_UpsertReaction :
    StoreState -> Context -> store.Reaction -> StoreState * GoResult store.Reaction;
  Store_DeleteReaction :
    StoreState -> Context -> store.DeleteReaction -> StoreState * option GoError;
  Store_GetMemo :
    StoreState -> Context -> store.FindMemo -> GoResult (option store.Memo);
  Store_ListAttachments :
    StoreState -> Context -> store.FindAttachment -> GoResult (list Attachment);
  convertMemoFromStore :
    StoreState -> Context -> store.Memo -> list store.Reaction -> list Attachment ->
    GoResult MemoMessage;
  DispatchMemoReactedWebhook :
    StoreState -> Context -> MemoMessage -> v1pb.Reaction -> option GoError
}.

(** ** The world a handler runs in *)

(** One [slog.Warn(msg, slog.Any("err", err))] record. *)
Record LogRecord : Set := Warn { LogMsg : string; LogErr : GoError }.

Section Handlers.
Context {svc : Service}.

(** The store, the log written so far (oldest first) and the calls made to
    the webhook dispatcher (oldest first). *)
Record World : Type := {
  db : StoreState;
  logs : list LogRecord;
  outbox : list (MemoMessage * v1pb.Reaction)
}.

Definition set_db (w : World) (d : StoreState) : World :=
  {| db := d; logs := logs w; outbox := outbox w |}.

Definition slog_Warn (w : World) (msg : string) (err : GoError) : World :=
  {| db := db w; logs := logs w ++ [Warn msg err]; outbox := outbox w |}.

Definition record_dispatch (w : World) (m : MemoMessage) (r : v1pb.Reaction) : World :=
  {| db := db w; logs := logs w; outbox := outbox w ++ [(m, r)] |}.

(** The two statuses the ownership and the authentication checks answer
    with (lines 42, 99, 116 and 120). *)
Definition permissionDenied : status.Status :=
  status.Errorf codes.PermissionDenied "permission denied".

Definition unauthenticated : status.Status :=
  status.Errorf codes.Unauthenticated "user not authenticated".

(** [convertReactionFromStore], lines 132-143. *)
Definition convertReactionFromStore (reaction : store.Reaction) : v1pb.Reaction :=
  let reactionUID := formatInt (store.ID reaction) in
  {| v1pb.Name := store.ContentID reaction ++ "/" ++ ReactionNamePrefix ++ reactionUID;
     v1pb.Creator := UserNamePrefix ++ formatInt (store.CreatorID reaction);
     v1pb.ContentId := store.ContentID reaction;
     v1pb.ReactionType := store.ReactionType reaction;
     v1pb.CreateTime := timestamppb_New_Unix (store.CreatedTs reaction) |}.

(** [ListMemoReactions], lines 18-34.  The loop appends one converted
    message per stored reaction to an initially empty slice. *)
Definition ListMemoReactions (w : World) (ctx : Context)
    (request : v1pb.ListMemoReactionsRequest)
  : World * Outcome v1pb.ListMemoReactionsResponse :=
  match Store_ListReactions (db w) ctx
          {| store.Find_ID := None; store.Find_CreatorID := None;
             store.Find_ContentID := Some (v1pb.ListReq_Name request);
             store.Find_ReactionType := None |} with
  | inr _ => (w, Error (status.Errorf codes.Internal "failed to list reactions"))
  | inl reactions =>
      let response :=
        fold_left
          (fun acc reaction => (acc ++ [convertReactionFromStore reaction])%list)
          reactions [] in
      (w, Return {| v1pb.Reactions := response |})
  end.

(** The store record built at lines 44-48: only the creator, the content id
    and the reaction type are set, the other fields keep Go's zero value. *)
Definition newStoreReaction (user : store.User) (r : v1pb.Reaction) : store.Reaction :=
  {| store.ID := 0; store.CreatedTs := 0;
     store.CreatorID := store.User_ID user;
     store.ContentID := v1pb.ContentId r;
     store.ReactionType := v1pb.ReactionType r |}.

Definition findByContentID (cid : string) : store.FindReaction :=
  {| store.Find_ID := None; store.Find_CreatorID := None;
     store.Find_ContentID := Some cid; store.Find_ReactionType := None |}.

Definition findByID (id : Z) : store.FindReaction :=
  {| store.Find_ID := Some id; store.Find_CreatorID := None;
     store.Find_ContentID := None; store.Find_ReactionType := None |}.

(** Lines 55-88 of [UpsertMemoReaction]: the webhook attempt that follows a
    stored reaction.  It only changes the log and the dispatcher calls. *)
Definition notifyMemoReacted (w : World) (ctx : Context)
    (contentId : string) (reactionMessage : v1pb.Reaction) : World :=
  match ExtractMemoUIDFromName contentId with
  | inr _ => w
  | inl memoUID =>
      match Store_GetMemo (db w) ctx
              {| store.FindMemo_ID := None; store.FindMemo_UID := Some memoUID |} with
      | inl (Some memo) =>
          let '(reactions, w1) :=
            match Store_ListReactions (db w) ctx (findByContentID contentId) with
            | inl rs => (rs, w)
            | inr err => ([], slog_Warn w "Failed to list reactions for webhook" err)
            end in
          let '(attachments, w2) :=
            match Store_ListAttachments (db w) ctx
                    {| store.FindAttachment_MemoID := Some (store.Memo_ID memo) |} with
            | inl ats => (ats, w1)
            | inr err => ([], slog_Warn w1 "Failed to list attachments for webhook" err)
            end in
          match convertMemoFromStore (db w) ctx memo reactions attachments with
          | inl memoMessage =>
              let w3 := record_dispatch w2 memoMessage reactionMessage in
              match DispatchMemoReactedWebhook (db w) ctx memoMessage reactionMessage with
              | Some err => slog_Warn w3 "Failed to dispatch memo reacted webhook" err
              | None => w3
              end
          | inr err => slog_Warn w2 "Failed to convert memo for reaction webhook" err
          end
      | _ => w
      end
  end.

(** [UpsertMemoReaction], lines 36-91. *)
Definition UpsertMemoReaction (w : World) (ctx : Context)
    (request : v1pb.UpsertMemoReactionRequest) : World * Outcome v1pb.Reaction :=
  match fetchCurrentUser (db w) ctx with
  | inr _ => (w, Error (status.Errorf codes.Internal "failed to get current user"))
  | inl None => (w, Error (status.Errorf codes.Unauthenticated "user not authenticated"))
  | inl (Some user) =>
      match v1pb.UpsertReq_Reaction request with
      | None => (w, Panic)
      | Some reqReaction =>
          let '(db1, res) :=
            Store_UpsertReaction (db w) ctx (newStoreReaction user reqReaction) in
          let w1 := set_db w db1 in
          match res with
          | inr _ => (w1, Error (status.Errorf codes.Internal "failed to upsert reaction"))
          | inl reaction =>
              let reactionMessage := convertReactionFromStore reaction in
              (notifyMemoReacted w1 ctx (v1pb.ContentId reqReaction) reactionMessage,
               Return reactionMessage)
          end
      end
  end.

(** [DeleteMemoReaction], lines 93-130. *)
Definition DeleteMemoReaction (w : World) (ctx : Context)
    (request : v1pb.DeleteMemoReactionRequest) : World * Outcome v1pb.Empty :=
  match fetchCurrentUser (db w) ctx with
  | inr err =>
      (w, Error (status.Errorf codes.Internal ("failed to get current user: " ++ err)))
  | inl None => (w, Error (status.Errorf codes.Unauthenticated "user not authenticated"))
  | inl (Some user) =>
      match ExtractMemoReactionIDFromName (v1pb.DeleteReq_Name request) with
      | inr err =>
          (w, Error (status.Errorf codes.InvalidArgument ("invalid reaction name: " ++ err)))
      | inl (_, reactionID) =>
          match Store_GetReaction (db w) ctx (findByID reactionID) with
          | inr _ => (w, Error (status.Errorf codes.Internal "failed to get reaction"))
          | inl None =>
              (w, Error (status.Errorf codes.PermissionDenied "permission denied"))
          | inl (Some reaction) =>
              if negb (store.CreatorID reaction =? store.User_ID user)
                 && negb (isSuperUser user)
              then (w, Error (status.Errorf codes.PermissionDenied "permission denied"))
              else
                let '(db1, derr) :=
                  Store_DeleteReaction (db w) ctx {| store.Delete_ID := reactionID |} in
                match derr with
                | Some _ =>
                    (set_db w db1,
                     Error (status.Errorf codes.Internal "failed to delete reaction"))
                | None => (set_db w db1, Return v1pb.mkEmpty)
                end
          end
      end
  end.
End Handlers.

(** ** Byte strings

    Go strings are byte sequences holding UTF-8; [string] is one [ascii] per
    byte.  The standard library's functions on them are written out over
    the bytes, a byte and an index being a [Z] as they are an [int] in Go. *)
Module utf8.
Definition RuneError : Z := 65533.
Definition RuneSelf : Z := 128.
Definition UTFMax : Z := 4.

Definition bytes (s : string) : list Z :=
  map (fun c => Z.of_N (N_of_ascii c)) (list_ascii_of_string s).

Definition ofBytes (bs : list Z) : string :=
  string_of_list_ascii (map (fun b => ascii_of_N (Z.to_N b)) bs).

(** [len(s)], [s[i]] and [s[i:j]] *)
Definition len (s : list Z) : Z := Z.of_nat (List.length s).

Definition byteAt (s : list Z) (i : Z) : Z := nth (Z.to_nat i) s 0.

Definition slice (s : list Z) (i j : Z) : list Z :=
  firstn (Z.to_nat (j - i)) (skipn (Z.to_nat i) s).

(** [utf8.RuneStart]: every byte but a continuation byte [10xxxxxx]. *)
Definition RuneStart (b : Z) : bool := negb (Z.land b 192 =? 128).

(** The table [first] with its [acceptRanges], for the leading bytes of the
    sequences of two to four bytes: the width of the sequence and the range
    of its second byte.  [None] is an invalid leading byte; the ASCII bytes
    are taken before the table is asked. *)
Definition first (s0 : Z) : option (Z * Z * Z) :=
  if (194 <=? s0) && (s0 <=? 223) then Some (2, 128, 191)
  else if s0 =? 224 then Some (3, 160, 191)
  else if (225 <=? s0) && (s0 <=? 236) then Some (3, 128, 191)
  else if s0 =? 237 then Some (3, 128, 159)
  else if (238 <=? s0) && (s0 <=? 239) then Some (3, 128, 191)
  else if s0 =? 240 then Some (4, 144, 191)
  else if (241 <=? s0) && (s0 <=? 243) then Some (4, 128, 191)
  else if s0 =? 244 then Some (4, 128, 143)
  else None.

(** A continuation byte lies between [locb] and [hicb]. *)
Definition continuation (b : Z) : bool := (128 <=? b) && (b <=? 191).

(** [utf8.DecodeRuneInString]: the first rune of [s] and its width;
    [(RuneError, 0)] for the empty string, [(RuneError, 1)] where the bytes
    are no valid encoding. *)
Definition DecodeRuneInString (s : list Z) : Z * Z :=
  match s with
  | [] => (RuneError, 0)
  | s0 :: _ =>
      if s0 <? RuneSelf then (s0, 1)
      else
        match first s0 with
        | None => (RuneError, 1)
        | Some (sz, lo, hi) =>
            if len s <? sz then (RuneError, 1)
            else
              let s1 := byteAt s 1 in
              if (s1 <? lo) || (hi <? s1) then (RuneError, 1)
              else if sz <=? 2 then
                (Z.lor (Z.shiftl (Z.land s0 31) 6) (Z.land s1 63), 2)
              else
                let s2 := byteAt s 2 in
                if negb (continuation s2) then (RuneError, 1)
                else if sz <=? 3 then
                  (Z.lor (Z.lor (Z.shiftl (Z.land s0 15) 12)
                                (Z.shiftl (Z.land s1 63) 6))
                         (Z.land s2 63), 3)
                else
                  let s3 := byteAt s 3 in
                  if negb (continuation s3) then (RuneError, 1)
                  else
                    (Z.lor (Z.lor (Z.lor (Z.shiftl (Z.land s0 7) 18)
                                         (Z.shiftl (Z.land s1 63) 12))
                                  (Z.shiftl (Z.land s2 63) 6))
                           (Z.land s3 63), 4)
        end
  end.

(** The loop of [DecodeLastRuneInString] that steps back to the nearest
    byte that can start a rune, no further than [lim]: it ends with
    [start = lim - 1] when there is none.  The loop body runs at most
    [UTFMax - 1] times, so the fuel given below is never used up. *)
Fixpoint backToRuneStart (fuel : nat) (s : list Z) (start lim : Z) : Z :=
  match fuel with
  | O => start
  | S fuel' =>
      if start <? lim then start
      else if RuneStart (byteAt s start) then start
      else backToRuneStart fuel' s (start - 1) lim
  end.

(** [utf8.DecodeLastRuneInString]: the last rune of [s] and its width. *)
Definition DecodeLastRuneInString (s : list Z) : Z * Z :=
  let end_ := len s in
  if end_ =? 0 then (RuneError, 0)
  else
    let r := byteAt s (end_ - 1) in
    if r <? RuneSelf then (r, 1)
    else
      let lim := Z.max (end_ - UTFMax) 0 in
      let start := backToRuneStart 5 s (end_ - 2) lim in
      let start := if start <? 0 then 0 else start in
      let '(r, size) := DecodeRuneInString (slice s start end_) in
      if negb (start + size =? end_) then (RuneError, 1) else (r, size).

(** [utf8.AppendRune] on an empty buffer: the encoding of a rune, that of
    [RuneError] for a surrogate or a value out of range. *)
Definition EncodeRune (r : Z) : list Z :=
  let cont x := Z.lor 128 (Z.land x 63) in
  if (0 <=? r) && (r <=? 127) then [r]
  else if (0 <=? r) && (r <=? 2047) then
    [Z.lor 192 (Z.shiftr r 6); cont r]
  else if (r <? 0) || (1114111 <? r) || ((55296 <=? r) && (r <=? 57343)) then
    [239; 191; 189]
  else if r <=? 65535 then
    [Z.lor 224 (Z.shiftr r 12); cont (Z.shiftr r 6); cont r]
  else
    [Z.lor 240 (Z.shiftr r 18); cont (Z.shiftr r 12); cont (Z.shiftr r 6);
     cont r].
End utf8.

Module unicode.
Definition MaxLatin1 : Z := 255.

(** [unicode.IsSpace]: in Latin-1 the six ASCII characters tab, line feed,
    vertical tab, form feed, carriage return and space, with U+0085 and
    U+00A0; beyond it the table [White_Space]: U+1680, U+2000 to U+200A,
    U+2028, U+2029, U+202F, U+205F and U+3000. *)
Definition IsSpace (r : Z) : bool :=
  if (0 <=? r) && (r <=? MaxLatin1) then
    (r =? 9) || (r =? 10) || (r =? 11) || (r =? 12) || (r =? 13)
    || (r =? 32) || (r =? 133) || (r =? 160)
  else
    (r =? 5760) || ((8192 <=? r) && (r <=? 8202))
    || ((8232 <=? r) && (r <=? 8233)) || (r =? 8239) || (r =? 8287)
    || (r =? 12288).

(** The white space of Unicode, one code point each. *)
Definition White_Space : list Z :=
  [9; 10; 11; 12; 13; 32; 133; 160; 5760;
   8192; 8193; 8194; 8195; 8196; 8197; 8198; 8199; 8200; 8201; 8202;
   8232; 8233; 8239; 8287; 12288].
End unicode.

Module strings.
Import utf8.

(** [strings.Split(s, sep)] for a one-byte separator: the pieces between
    the separators, [[""]] for the empty string. *)
Fixpoint Split (sep : ascii) (s : string) : list string :=
  match s with
  | EmptyString => [EmptyString]
  | String c rest =>
      if Ascii.eqb c sep then EmptyString :: Split sep rest
      else match Split sep rest with
           | piece :: pieces => String c piece :: pieces
           | [] => [String c EmptyString]
           end
  end.

(** The table [asciiSpace]: tab, line feed, vertical tab, form feed,
    carriage return, space. *)
Definition asciiSpace (c : Z) : bool :=
  (c =? 9) || (c =? 10) || (c =? 11) || (c =? 12) || (c =? 13) || (c =? 32).

(** [indexFunc]: the index of the first rune [r] of [s] with
    [f r = truth], [-1] when there is none.  [s] is what is left of the
    string from index [i] on; every rune of a string that is not empty is
    at least one byte wide, so fuel [length s] is never used up. *)
Fixpoint indexFuncFrom (fuel : nat) (s : list Z) (i : Z) (f : Z -> bool)
    (truth : bool) : Z :=
  match fuel with
  | O => -1
  | S fuel' =>
      match s with
      | [] => -1
      | _ =>
          let '(r, size) := DecodeRuneInString s in
          if Bool.eqb (f r) truth then i
          else indexFuncFrom fuel' (skipn (Z.to_nat size) s) (i + size) f truth
      end
  end.

Definition indexFunc (s : list Z) (f : Z -> bool) (truth : bool) : Z :=
  indexFuncFrom (List.length s) s 0 f truth.

(** [lastIndexFunc]: the same from the end, [i] being the end of what is
    still to be looked at. *)
Fixpoint lastIndexFuncFrom (fuel : nat) (s : list Z) (i : Z) (f : Z -> bool)
    (truth : bool) : Z :=
  match fuel with
  | O => -1
  | S fuel' =>
      if 0 <? i then
        let '(r, size) := DecodeLastRuneInString (slice s 0 i) in
        let i := i - size in
        if Bool.eqb (f r) truth then i
        else lastIndexFuncFrom fuel' s i f truth
      else -1
  end.

Definition lastIndexFunc (s : list Z) (f : Z -> bool) (truth : bool) : Z :=
  lastIndexFuncFrom (List.length s) s (len s) f truth.

(** [strings.TrimLeftFunc] *)
Definition TrimLeftFunc (s : list Z) (f : Z -> bool) : list Z :=
  let i := indexFunc s f false in
  if i =? -1 then [] else slice s i (len s).

(** [strings.TrimRightFunc] *)
Definition TrimRightFunc (s : list Z) (f : Z -> bool) : list Z :=
  let i := lastIndexFunc s f false in
  let i :=
    if (0 <=? i) && (RuneSelf <=? byteAt s i) then
      i + snd (DecodeRuneInString (slice s i (len s)))
    else i + 1 in
  slice s 0 i.

(** [strings.TrimFunc] *)
Definition TrimFunc (s : list Z) (f : Z -> bool) : list Z :=
  TrimRightFunc (TrimLeftFunc s f) f.

(** The two loops of [strings.TrimSpace] over ASCII bytes: white space is
    dropped up to the first byte that is none; the flag tells that this
    byte is not ASCII. *)
Fixpoint skipAsciiSpace (s : list Z) : list Z * bool :=
  match s with
  | [] => ([], false)
  | c :: rest =>
      if RuneSelf <=? c then (s, true)
      else if asciiSpace c then skipAsciiSpace rest
      else (s, false)
  end.

(** [strings.TrimSpace] on bytes: the white space of [unicode.IsSpace] is
    removed at both ends.  ASCII white space is dropped first from the
    start, then from the end, the second loop running over the string
    reversed; at the first byte that is not ASCII the rest is left to
    [TrimFunc], respectively [TrimRightFunc], which decode runes. *)
Definition TrimSpaceBytes (s : list Z) : list Z :=
  let '(s1, nonAscii) := skipAsciiSpace s in
  if nonAscii then TrimFunc s1 unicode.IsSpace
  else
    let '(r2, nonAscii) := skipAsciiSpace (rev s1) in
    if nonAscii then TrimRightFunc (rev r2) unicode.IsSpace
    else rev r2.

(** [strings.TrimSpace] *)
Definition TrimSpace (s : string) : string := ofBytes (TrimSpaceBytes (bytes s)).
End strings.

(** [strconv.ParseInt(s, 10, 32)]: an optional sign, plus or minus, then
    one or more decimal digits; [None] where Go reports a syntax error or a
    value out of the range of [int32]. *)
Definition parseInt32 (s : string) : option Z :=
  let digits (neg : bool) (ds : string) :=
    match NilZero.uint_of_string ds with
    | Some d =>
        let z := if neg then - Z.of_uint d else Z.of_uint d in
        if (- 2 ^ 31 <=? z) && (z <? 2 ^ 31) then Some z else None
    | None => None
    end in
  match s with
  | String "+"%char rest => digits false rest
  | String "-"%char rest => digits true rest
  | _ => digits false s
  end.

(** ** An in-memory service

    One implementation of [Service], used to run the handlers on concrete
    worlds.  The store, the session lookup, the resource-name helpers and the
    webhook transport are external collaborators whose code is not part of
    the handler file; this instance follows sections 3, 4.3 and 4.4 of the
    specification.  Every collaborator call can be made to fail through
    [failing]. *)
Module Mem.
Inductive Op : Set :=
| OpGetUser | OpListReactions | OpGetReaction | OpUpsertReaction | OpDeleteReaction
| OpGetMemo | OpListAttachments | OpConvertMemo | OpDispatch.

Definition Op_eqb (a b : Op) : bool :=
  match a, b with
  | OpGetUser, OpGetUser | OpListReactions, OpListReactions
  | OpGetReaction, OpGetReaction | OpUpsertReaction, OpUpsertReaction
  | OpDeleteReaction, OpDeleteReaction | OpGetMemo, OpGetMemo
  | OpListAttachments, OpListAttachments | OpConvertMemo, OpConvertMemo
  | OpDispatch, OpDispatch => true
  | _, _ => false
  end.

Record Attachment : Set := {
  Attachment_ID : Z;
  Attachment_MemoID : Z;
  Attachment_Filename : string
}.

(** The webhook payload of section 6: content, reactions, attachments. *)
Record MemoMessage : Set := {
  Payload_Name : string;
  Payload_Reactions : list store.Reaction;
  Payload_Attachments : list Attachment
}.

Record DB : Set := {
  users : list store.User;
  memos : list store.Memo;
  reactions : list store.Reaction;
  attachments : list Attachment;
  nextReactionID : Z;
  now : Z;
  failing : list Op
}.

Definition fails (d : DB) (op : Op) : bool := existsb (Op_eqb op) (failing d).

(** Modelled from the spec: the request context, which is resolved outside
    the handlers; it carries the id of the signed-in user, if any. *)
Definition Ctx : Set := option Z.

(** Modelled from the spec: [fetchCurrentUser], defined outside the handler
    file; no id in the context is an anonymous requester, an id is resolved
    against the user table. *)
Definition fetchCurrentUser (d : DB) (ctx : Ctx) : GoResult (option store.User) :=
  match ctx with
  | None => inl None
  | Some uid =>
      if fails d OpGetUser then inr "failed to get user"
      else match find (fun u => store.User_ID u =? uid) (users d) with
           | Some u => inl (Some u)
           | None => inr "user not found"
           end
  end.

(** Modelled from the spec: [isSuperUser], defined outside the handler file;
    hosts and administrators are the privileged requesters. *)
Definition isSuperUser (u : store.User) : bool :=
  match store.User_Role u with
  | store.RoleHost | store.RoleAdmin => true
  | store.RoleUser => false
  end.

(** Modelled from the spec: [ExtractMemoUIDFromName], defined outside the
    handler file; a memo name is [memos/{uid}]. *)
Definition ExtractMemoUIDFromName (name : string) : GoResult string :=
  match strings.Split "/" name with
  | [prefix; uid] =>
      if (prefix =? "memos")%string && negb (uid =? "")%string then inl uid
      else inr "invalid memo name"
  | _ => inr "invalid memo name"
  end.

(** Modelled from the spec: [ExtractMemoReactionIDFromName], defined outside
    the handler file; a reaction name is [memos/{uid}/reactions/{id}]. *)
Definition ExtractMemoReactionIDFromName (name : string) : GoResult (string * Z) :=
  match strings.Split "/" name with
  | [prefix; uid; kind; rid] =>
      if (prefix =? "memos")%string && (kind =? "reactions")%string then
        match parseInt32 rid with
        | Some id => inl (uid, id)
        | None => inr "invalid reaction id"
        end
      else inr "invalid reaction name"
  | _ => inr "invalid reaction name"
  end.

Definition optMatch {A : Type} (eqb : A -> A -> bool) (want : option A) (have : A) : bool :=
  match want with
  | None => true
  | Some x => eqb x have
  end.

(** Modelled from the spec: the filter a [store.FindReaction] stands for; the
    store package is not among the sources. *)
Definition matchesFind (f : store.FindReaction) (r : store.Reaction) : bool :=
  optMatch Z.eqb (store.Find_ID f) (store.ID r)
  && optMatch Z.eqb (store.Find_CreatorID f) (store.CreatorID r)
  && optMatch String.eqb (store.Find_ContentID f) (store.ContentID r)
  && optMatch String.eqb (store.Find_ReactionType f) (store.ReactionType r).

(** Modelled from the spec: [Store.ListReactions], not among the sources;
    the matching reactions in insertion order. *)
Definition ListReactions (d : DB) (_ : Ctx) (f : store.FindReaction)
  : GoResult (list store.Reaction) :=
  if fails d OpListReactions then inr "database is closed"
  else inl (filter (matchesFind f) (reactions d)).

(** Modelled from the spec: [Store.GetReaction], not among the sources; the
    first matching reaction, nil without error when there is none. *)
Definition GetReaction (d : DB) (_ : Ctx) (f : store.FindReaction)
  : GoResult (option store.Reaction) :=
  if fails d OpGetReaction then inr "database is closed"
  else inl (find (matchesFind f) (reactions d)).

Definition sameKey (a b : store.Reaction) : bool :=
  (store.CreatorID a =? store.CreatorID b)
  && (store.ContentID a =? store.ContentID b)%string
  && (store.ReactionType a =? store.ReactionType b)%string.

Definition with_reactions (d : DB) (rs : list store.Reaction) (next : Z) : DB :=
  {| users := users d; memos := memos d; reactions := rs;
     attachments := attachments d; nextReactionID := next; now := now d;
     failing := failing d |}.

(** Modelled from the spec: [Store.UpsertReaction], not among the sources;
    (creator, content, type) is the natural key, and an upsert replaces the
    reaction stored under it by a record with a fresh id. *)
Definition UpsertReaction (d : DB) (_ : Ctx) (r : store.Reaction)
  : DB * GoResult store.Reaction :=
  if fails d OpUpsertReaction then (d, inr "database is closed")
  else
    let stored :=
      {| store.ID := nextReactionID d; store.CreatedTs := now d;
         store.CreatorID := store.CreatorID r; store.ContentID := store.ContentID r;
         store.ReactionType := store.ReactionType r |} in
    (with_reactions d
       (filter (fun old => negb (sameKey old r)) (reactions d) ++ [stored])
       (nextReactionID d + 1),
     inl stored).

(** Modelled from the spec: [Store.DeleteReaction], not among the sources;
    the reaction is physically removed by id. *)
Definition DeleteReaction (d : DB) (_ : Ctx) (del : store.DeleteReaction)
  : DB * option GoError :=
  if fails d OpDeleteReaction then (d, Some "database is closed")
  else
    (with_reactions d
       (filter (fun r => negb (store.ID r =? store.Delete_ID del)) (reactions d))
       (nextReactionID d),
     None).

(** Modelled from the spec: [Store.GetMemo], not among the sources. *)
Definition GetMemo (d : DB) (_ : Ctx) (f : store.FindMemo) : GoResult (option store.Memo) :=
  if fails d OpGetMemo then inr "database is closed"
  else inl (find (fun m => optMatch Z.eqb (store.FindMemo_ID f) (store.Memo_ID m)
                           && optMatch String.eqb (store.FindMemo_UID f) (store.Memo_UID m))
                 (memos d)).

(** Modelled from the spec: [Store.ListAttachments], not among the
    sources. *)
Definition ListAttachments (d : DB) (_ : Ctx) (f : store.FindAttachment)
  : GoResult (list Attachment) :=
  if fails d OpListAttachments then inr "database is closed"
  else inl (filter (fun a => optMatch Z.eqb (store.FindAttachment_MemoID f)
                                      (Attachment_MemoID a))
                   (attachments d)).

(** Modelled from the spec: [convertMemoFromStore], defined outside the
    handler file; the payload is the content with its reaction and
    attachment lists. *)
Definition convertMemoFromStore (d : DB) (_ : Ctx) (memo : store.Memo)
    (rs : list store.Reaction) (ats : list Attachment) : GoResult MemoMessage :=
  if fails d OpConvertMemo then inr "failed to convert memo"
  else inl {| Payload_Name := "memos/" ++ store.Memo_UID memo;
              Payload_Reactions := rs;
              Payload_Attachments := ats |}.

(** Modelled from the spec: [DispatchMemoReactedWebhook], the external
    delivery, which either succeeds or reports an error. *)
Definition DispatchMemoReactedWebhook (d : DB) (_ : Ctx) (_ : MemoMessage)
    (_ : v1pb.Reaction) : option GoError :=
  if fails d OpDispatch then Some "webhook endpoint unreachable" else None.

End Mem.

#[global] Instance memService : Service := {|
  StoreState := Mem.DB;
  Context := Mem.Ctx;
  Attachment := Mem.Attachment;
  MemoMessage := Mem.MemoMessage;
  ReactionNamePrefix := "reactions/";
  UserNamePrefix := "users/";
  fetchCurrentUser := Mem.fetchCurrentUser;
  isSuperUser := Mem.isSuperUser;
  ExtractMemoUIDFromName := Mem.ExtractMemoUIDFromName;
  ExtractMemoReactionIDFromName := Mem.ExtractMemoReactionIDFromName;
  Store_ListReactions := Mem.ListReactions;
  Store_GetReaction := Mem.GetReaction;
  Store_UpsertReaction := Mem.UpsertReaction;
  Store_DeleteReaction := Mem.DeleteReaction;
  Store_GetMemo := Mem.GetMemo;
  Store_ListAttachments := Mem.ListAttachments;
  convertMemoFromStore := Mem.convertMemoFromStore;
  DispatchMemoReactedWebhook := Mem.DispatchMemoReactedWebhook
|}.

(** *** A sample world

    Alice (id 1, host), Bob (id 2) and Carol (id 3) are users; Bob owns the
    memo [memos/m1], on which Bob (reaction 1) and Carol (reaction 2) have
    reacted. *)
Module Sample.
Definition alice : store.User := {| store.User_ID := 1; store.User_Role := store.RoleHost |}.
Definition bob : store.User := {| store.User_ID := 2; store.User_Role := store.RoleUser |}.
Definition carol : store.User := {| store.User_ID := 3; store.User_Role := store.RoleUser |}.

Definition m1 : store.Memo :=
  {| store.Memo_ID := 10; store.Memo_UID := "m1"; store.Memo_CreatorID := 2;
     store.Memo_Content := "hello"; store.Memo_Visibility := store.Public;
     store.Memo_Tags := ["work"] |}.

Definition r1 : store.Reaction :=
  {| store.ID := 1; store.CreatedTs := 100; store.CreatorID := 2;
     store.ContentID := "memos/m1"; store.ReactionType := "thumbs-up" |}.
Definition r2 : store.Reaction :=
  {| store.ID := 2; store.CreatedTs := 101; store.CreatorID := 3;
     store.ContentID := "memos/m1"; store.ReactionType := "heart" |}.

Definition file1 : Mem.Attachment :=
  {| Mem.Attachment_ID := 7; Mem.Attachment_MemoID := 10;
     Mem.Attachment_Filename := "a.png" |}.

Definition database (failing : list Mem.Op) : Mem.DB :=
  {| Mem.users := [alice; bob; carol]; Mem.memos := [m1]; Mem.reactions := [r1; r2];
     Mem.attachments := [file1]; Mem.nextReactionID := 3; Mem.now := 200;
     Mem.failing := failing |}.

Definition world (failing : list Mem.Op) : World :=
  {| db := database failing; logs := []; outbox := [] |}.

Definition react (cid kind : string) : v1pb.UpsertMemoReactionRequest :=
  {| v1pb.UpsertReq_Name := cid;
     v1pb.UpsertReq_Reaction :=
       Some {| v1pb.Name := ""; v1pb.Creator := "users/1"; v1pb.ContentId := cid;
               v1pb.ReactionType := kind;
               v1pb.CreateTime := timestamppb_New_Unix 0 |} |}.

Definition unreact (name : string) : v1pb.DeleteMemoReactionRequest :=
  {| v1pb.DeleteReq_Name := name |}.

(** The message of the reaction Carol's upsert of ["party"] creates. *)
Definition party : v1pb.Reaction :=
  {| v1pb.Name := "memos/m1/reactions/3"; v1pb.Creator := "users/3";
     v1pb.ContentId := "memos/m1"; v1pb.ReactionType := "party";
     v1pb.CreateTime := timestamppb_New_Unix 200 |}.
End Sample.

(** ** Tag aggregation

    The tag listing ([ListUserTags] and its private [sortTagsByHierarchy])
    is exercised by the test file but defined elsewhere, so the definitions
    of this module follow section 4.1 and 4.2 of the specification, read
    together with the expectations of the tests. *)
Module Tags.
Inductive Requester : Set :=
| Anonymous
| Authenticated (userId : Z) (isPrivileged : bool).

(** Modelled from the spec: the visibility policy of section 4.1, whose
    code is not among the sources; the five rules in priority order. *)
Definition canView (contentVisibility : store.Visibility) (contentCreatorId : Z)
    (requester : Requester) : bool :=
  match requester with
  | Authenticated userId isPrivileged =>
      if userId =? contentCreatorId then true
      else if isPrivileged then true
      else match contentVisibility with
           | store.Public => true
           | store.Protected => true
           | store.Private => false
           end
  | Anonymous =>
      match contentVisibility with
      | store.Public => true
      | _ => false
      end
  end.

(** Lexicographic comparison of two sequences: the first differing
    position decides, and a proper prefix comes first. *)
Fixpoint lexCompare {A : Type} (cmp : A -> A -> comparison) (xs ys : list A)
  : comparison :=
  match xs, ys with
  | [], [] => Eq
  | [], _ :: _ => Lt
  | _ :: _, [] => Gt
  | x :: xs', y :: ys' =>
      match cmp x y with
      | Eq => lexCompare cmp xs' ys'
      | c => c
      end
  end.

(** A three-way comparison that is a strict total order. *)
Class TotalCompare {A : Type} (cmp : A -> A -> comparison) : Prop := {
  cmp_refl : forall x, cmp x x = Eq;
  cmp_eq : forall x y, cmp x y = Eq -> x = y;
  cmp_antisym : forall x y, cmp x y = CompOpp (cmp y x);
  cmp_trans : forall x y z, cmp x y = Lt -> cmp y z = Lt -> cmp x z = Lt
}.

(** Modelled from the spec: the emoji removal used by the comparator,
    which is not among the sources; a sample of the pluggable normalization
    of section 4.2 (the spec leaves the exact ranges open).  On UTF-8 bytes it
    drops every four-byte sequence (the supplementary planes, where the
    pictographs live), the variation selector U+FE0F and the zero-width
    joiner U+200D. *)
Fixpoint stripPictographic (inside : bool) (s : string) : string :=
  match s with
  | EmptyString => EmptyString
  | String c rest =>
      let n := N_of_ascii c in
      if (inside && (128 <=? n) && (n <? 192))%N then stripPictographic true rest
      else if (240 <=? n)%N then stripPictographic true rest
      else match rest with
           | String c2 (String c3 rest') =>
               let n2 := N_of_ascii c2 in
               let n3 := N_of_ascii c3 in
               if ((n =? 239) && (n2 =? 184) && (n3 =? 143)
                   || (n =? 226) && (n2 =? 128) && (n3 =? 141))%N
               then stripPictographic false rest'
               else String c (stripPictographic false rest)
           | _ => String c (stripPictographic false rest)
           end
  end.

Definition removeEmojis (s : string) : string := stripPictographic false s.

Section Aggregation.
(** The normalization applied to each segment before comparison. *)
Variable normalize : string -> string.

(** Modelled from the spec: the comparison keys used by
    [sortTagsByHierarchy], which is not among the sources; the normalized
    [/]-separated segments of a tag. *)
Definition segmentKeys (tag : string) : list string :=
  map normalize (strings.Split "/" tag).

(** Modelled from the spec: the comparator of [sortTagsByHierarchy],
    which is not among the sources (section 4.2, step 4).  Tags are compared segment by segment on their
    normalized keys, an ancestor before its descendants; the raw byte
    order of the tags decides only when all keys are equal (the test
    file states the expected order as the order of the tags with their
    emoji removed). *)
Definition compareTags (a b : string) : comparison :=
  match lexCompare String.compare (segmentKeys a) (segmentKeys b) with
  | Eq => String.compare a b
  | c => c
  end.

Definition tagLess (a b : string) : bool :=
  match compareTags a b with
  | Lt => true
  | _ => false
  end.

(** [a] does not come after [b]. *)
Definition tagLe (a b : string) : Prop := compareTags a b <> Gt.

Fixpoint insertTag (t : string) (sorted : list string) : list string :=
  match sorted with
  | [] => [t]
  | h :: rest => if tagLess h t then h :: insertTag t rest else t :: h :: rest
  end.

(** Modelled from the spec: the private routine [sortTagsByHierarchy],
    which is not among the sources, as the sort of the tags by
    [compareTags]. *)
Definition sortTagsByHierarchy (tags : list string) : list string :=
  fold_right insertTag [] tags.

(** Modelled from the spec: the blank-tag filter of [ListUserTags], which
    is not among the sources; a tag is kept unless it is empty after
    trimming, that is unless it is empty or all white space.  Trimming is
    Go's [strings.TrimSpace], which removes the white space of Unicode. *)
Definition nonBlank (tag : string) : bool :=
  negb (strings.TrimSpace tag =? "")%string.

(** Modelled from the spec: the body of [ListUserTags], which is not
    among the sources; steps 2 to 5 of section 4.2 on the tags collected
    from the visible items. *)
Definition aggregate (tags : list string) : list string :=
  sortTagsByHierarchy (nodup string_dec (filter nonBlank tags)).

Definition visibleTo (requester : Requester) (item : store.Memo) : bool :=
  canView (store.Memo_Visibility item) (store.Memo_CreatorID item) requester.

(** The multiset of tags carried by the items the requester may see. *)
Definition visibleTags (contentItems : list store.Memo) (requester : Requester)
  : list string :=
  flat_map store.Memo_Tags (filter (visibleTo requester) contentItems).

(** Modelled from the spec: [aggregateTags] of section 4.2, the tag
    listing [ListUserTags] that is not among the sources. *)
Definition aggregateTags (contentItems : list store.Memo) (requester : Requester)
  : list string :=
  aggregate (visibleTags contentItems requester).
End Aggregation.

(** [x] occurs in [l] at an earlier position than [y]. *)
Definition precedes (x y : string) (l : list string) : Prop :=
  exists l1 l2 l3, l = (l1 ++ x :: l2 ++ y :: l3)%list.

(** The segment sequence of [p] is a strict prefix of that of [q]. *)
Definition ancestorOf (p q : string) : Prop :=
  exists rest, rest <> [] /\
    strings.Split "/" q = (strings.Split "/" p ++ rest)%list.

(** A memo of user [owner] carrying [tags], as the tests create them. *)
Definition memoWith (owner : Z) (v : store.Visibility) (tags : list string)
  : store.Memo :=
  {| store.Memo_ID := 0; store.Memo_UID := ""; store.Memo_CreatorID := owner;
     store.Memo_Content := ""; store.Memo_Visibility := v;
     store.Memo_Tags := tags |}.
End Tags.

(** *** The memo sets of the tag tests

    The fixtures of [user_service_tags_test.go]: user 1 is the owner and a
    host, user 2 a regular visitor. *)
Module TagTests.
Import Tags.

Definition owner : Requester := Authenticated 1 true.
Definition visitor : Requester := Authenticated 2 false.

(** [TestListUserTags_BasicFunctionality] *)
Definition basic : list store.Memo :=
  [memoWith 1 store.Public ["work"; "project1"];
   memoWith 1 store.Public ["work"; "project2"];
   memoWith 1 store.Protected ["personal"; "family"];
   memoWith 1 store.Private ["personal"];
   memoWith 1 store.Public ["work/subproject"; "archive"]].

(** One public memo per tag, as several tests create them. *)
Definition oneEach (tags : list string) : list store.Memo :=
  map (fun tag => memoWith 1 store.Public [tag]) tags.

(** [TestListUserTags_HierarchicalSorting] *)
Definition hierarchical : list store.Memo :=
  oneEach ["work/project2/task1"; "work"; "personal/family"; "personal";
           "work/project1"; "archive/2024/q1"; "archive"; "archive/2024"].

(** [TestListUserTags_VisibilityPermissions] *)
Definition tiers : list store.Memo :=
  [memoWith 1 store.Public ["public-tag"];
   memoWith 1 store.Protected ["protected-tag"];
   memoWith 1 store.Private ["private-tag"]].

(** [TestListUserTags_EmptyTags] *)
Definition withEmpty : list store.Memo :=
  [memoWith 1 store.Public []; memoWith 1 store.Public [""; "valid-tag"; ""]].

(** [ListUserTags] with the sample normalization. *)
Definition listUserTags (items : list store.Memo) (requester : Requester) : list string :=
  aggregateTags removeEmojis items requester.

(** Tags that are white space only, in bytes that are not ASCII: U+00A0
    (no-break space) and U+3000 (ideographic space). *)
Definition noBreakSpace : string := utf8.ofBytes [194; 160].
Definition ideographicSpace : string := utf8.ofBytes [227; 128; 128].

Definition blankAndRepeated : list string :=
  [""; "valid-tag"; "  "; noBreakSpace; "valid-tag"; ideographicSpace; ""].
End TagTests.

(** * The web client

    The attachment helpers that follow the image preview dialog in
    [web/src/components/PreviewImageDialog.tsx] (lines 200-263).  A
    JavaScript string is modelled by its UTF-8 bytes: the helpers compare
    and search for ASCII text only, and an ASCII byte occurs in UTF-8 exactly
    where the ASCII character occurs in the string. *)

(** ** JavaScript string methods *)
Module js.
(** [s.startsWith(prefix)] *)
Definition startsWith (s prefix : string) : bool := String.prefix prefix s.

(** [s.includes(needle)] *)
Fixpoint includes (s needle : string) : bool :=
  String.prefix needle s
  || match s with
     | EmptyString => false
     | String _ rest => includes rest needle
     end.

(** [a === b] on strings *)
Definition strictEq (a b : string) : bool := String.eqb a b.

(** Truthiness of a string: every string but the empty one. *)
Definition truthy (s : string) : bool := negb (String.eqb s "").
End js.

(** ** Regular expressions

    The patterns of [isIPAddress] use classes, concatenation, alternation,
    bounded repetition and the star, anchored at both ends, so
    [RegExp.prototype.test] decides membership of the whole string in the
    language of the pattern.  Matching is by derivatives. *)
Module regexp.
Inductive regex : Type :=
| Never                                   (* matches nothing *)
| Empty                                   (* the empty string *)
| Class (accept : ascii -> bool)          (* one character of a class *)
| Cat (r1 r2 : regex)
| Or (r1 r2 : regex)
| Star (r : regex).

Fixpoint nullable (r : regex) : bool :=
  match r with
  | Never => false
  | Empty => true
  | Class _ => false
  | Cat r1 r2 => nullable r1 && nullable r2
  | Or r1 r2 => nullable r1 || nullable r2
  | Star _ => true
  end.

Fixpoint deriv (c : ascii) (r : regex) : regex :=
  match r with
  | Never => Never
  | Empty => Never
  | Class accept => if accept c then Empty else Never
  | Cat r1 r2 =>
      if nullable r1 then Or (Cat (deriv c r1) r2) (deriv c r2)
      else Cat (deriv c r1) r2
  | Or r1 r2 => Or (deriv c r1) (deriv c r2)
  | Star r1 => Cat (deriv c r1) (Star r1)
  end.

(** [/^r$/.test(s)] *)
Fixpoint test (r : regex) (s : string) : bool :=
  match s with
  | EmptyString => nullable r
  | String c rest => test (deriv c r) rest
  end.

(** The language of a pattern. *)
Inductive accepts : regex -> string -> Prop :=
| acc_empty : accepts Empty ""
| acc_class accept c : accept c = true -> accepts (Class accept) (String c "")
| acc_cat r1 r2 s1 s2 : accepts r1 s1 -> accepts r2 s2 -> accepts (Cat r1 r2) (s1 ++ s2)
| acc_or_l r1 r2 s : accepts r1 s -> accepts (Or r1 r2) s
| acc_or_r r1 r2 s : accepts r2 s -> accepts (Or r1 r2) s
| acc_star_nil r : accepts (Star r) ""
| acc_star_cons r s1 s2 :
    accepts r s1 -> accepts (Star r) s2 -> accepts (Star r) (s1 ++ s2).

(** [r{n}] *)
Fixpoint exactly (n : nat) (r : regex) : regex :=
  match n with
  | O => Empty
  | S n' => Cat r (exactly n' r)
  end.

(** [r{0,n}] *)
Fixpoint upTo (n : nat) (r : regex) : regex :=
  match n with
  | O => Empty
  | S n' => Or Empty (Cat r (upTo n' r))
  end.

(** [r{lo,hi}] *)
Definition between (lo hi : nat) (r : regex) : regex :=
  Cat (exactly lo r) (upTo (hi - lo) r).

(** [(r)?] *)
Definition optional (r : regex) : regex := Or Empty r.

(** One given character. *)
Definition char (c : ascii) : regex := Class (Ascii.eqb c).

(** Every character of [s] satisfies [p]. *)
Fixpoint allChars (p : ascii -> bool) (s : string) : bool :=
  match s with
  | EmptyString => true
  | String c rest => p c && allChars p rest
  end.

(** Every class of the pattern lies within [p]. *)
Fixpoint alphabet (p : ascii -> bool) (r : regex) : Prop :=
  match r with
  | Never | Empty => True
  | Class accept => forall c, accept c = true -> p c = true
  | Cat r1 r2 | Or r1 r2 => alphabet p r1 /\ alphabet p r2
  | Star r1 => alphabet p r1
  end.

(** [\d] *)
Definition digit (c : ascii) : bool :=
  let n := N_of_ascii c in ((48 <=? n) && (n <=? 57))%N.

(** [[\da-f]] under the [i] flag: the letters match in both cases. *)
Definition hexDigit (c : ascii) : bool :=
  let n := N_of_ascii c in
  (digit c || (97 <=? n) && (n <=? 102) || (65 <=? n) && (n <=? 70))%N.
End regexp.

(** ** Attachments *)
Module attachment.
Import regexp.

(** The fields of the API [Attachment] message the helpers read. *)
Record Attachment : Set := {
  name : string;
  filename : string;
  externalLink : string;
  type : string;
  reference : string
}.

(** [window.location] *)
Record Location : Set := { origin : string; hostname : string }.

(** [ipv4Regex], line 203: "/^(\d{1,3}\.){3}\d{1,3}$/" *)
Definition ipv4Regex : regex :=
  Cat (exactly 3 (Cat (between 1 3 (Class digit)) (char "."))) (between 1 3 (Class digit)).

(** [ipv6Regex], line 204: "/^([\da-f]{1,4}:){7}[\da-f]{1,4}$/i" *)
Definition ipv6Regex : regex :=
  Cat (exactly 7 (Cat (between 1 4 (Class hexDigit)) (char ":")))
      (between 1 4 (Class hexDigit)).

(** The regular expression "[a-f\d]{1,4}(:[a-f\d]{1,4})*", twice a part of
    the next one. *)
Definition hexGroups : regex :=
  Cat (between 1 4 (Class hexDigit))
      (Star (Cat (char ":") (between 1 4 (Class hexDigit)))).

(** [ipv6ShortRegex], line 205: "/^::1$|^(G)?::(G)?$/i", where G stands for
    the groups above. *)
Definition ipv6ShortRegex : regex :=
  Or (Cat (char ":") (Cat (char ":") (char "1")))
     (Cat (optional hexGroups) (Cat (char ":") (Cat (char ":") (optional hexGroups)))).

(** [isIPAddress], lines 202-207. *)
Definition isIPAddress (hostname : string) : bool :=
  test ipv4Regex hostname || test ipv6Regex hostname || test ipv6ShortRegex hostname.

(** [getAttachmentUrl], lines 209-222. *)
Definition getAttachmentUrl (location : Location) (attachment : Attachment) : string :=
  if js.truthy (externalLink attachment) then externalLink attachment
  else
    let hostname := hostname location in
    let isIP := isIPAddress hostname in
    if isIP then
      origin location ++ "/file/" ++ name attachment ++ "/" ++ filename attachment
    else origin location ++ "/files/" ++ reference attachment.

(** [isPSD], lines 261-263. *)
Definition isPSD (t : string) : bool :=
  js.strictEq t "image/vnd.adobe.photoshop" || js.strictEq t "image/x-photoshop"
  || js.strictEq t "image/photoshop".

(** [isMidiFile], lines 257-259. *)
Definition isMidiFile (mimeType : string) : bool :=
  js.strictEq mimeType "audio/midi" || js.strictEq mimeType "audio/mid"
  || js.strictEq mimeType "audio/x-midi" || js.strictEq mimeType "application/x-midi".

(** [isImage], lines 251-254. *)
Definition isImage (t : string) : bool := js.startsWith t "image/" && negb (isPSD t).

(** [getAttachmentType], lines 224-248. *)
Definition getAttachmentType (attachment : Attachment) : string :=
  if isImage (type attachment) then "image/*"
  else if js.startsWith (type attachment) "video" then "video/*"
  else if js.startsWith (type attachment) "audio" && negb (isMidiFile (type attachment))
  then "audio/*"
  else if js.startsWith (type attachment) "text" then "text/*"
  else if js.startsWith (type attachment) "application/epub+zip" then "application/epub+zip"
  else if js.startsWith (type attachment) "application/pdf" then "application/pdf"
  else if js.includes (type attachment) "word" then "application/msword"
  else if js.includes (type attachment) "excel" then "application/msexcel"
  else if js.startsWith (type attachment) "application/zip" then "application/zip"
  else if js.startsWith (type attachment) "application/x-java-archive"
  then "application/x-java-archive"
  else "application/octet-stream".

(** The eleven answers of [getAttachmentType]. *)
Definition attachmentTypes : list string :=
  ["image/*"; "video/*"; "audio/*"; "text/*"; "application/epub+zip";
   "application/pdf"; "application/msword"; "application/msexcel";
   "application/zip"; "application/x-java-archive"; "application/octet-stream"].

(** An attachment of the given MIME type. *)
Definition ofType (t : string) : Attachment :=
  {| name := "attachments/1"; filename := "file"; externalLink := "";
     type := t; reference := "ref" |}.

(** One to three decimal digits. *)
Definition isOctetText (g : string) : bool :=
  (1 <=? String.length g)%nat && (String.length g <=? 3)%nat && allChars digit g.

(** The characters an accepted host name is made of. *)
Definition isAddressChar (c : ascii) : bool :=
  hexDigit c || Ascii.eqb "." c || Ascii.eqb ":" c.
End attachment.

(** ** JavaScript numbers

    A JavaScript number is an IEEE 754 binary64 value; the arithmetic is the
    reference implementation of the standard library (round to nearest,
    ties to even). *)
Module number.
Definition Number : Set := spec_float.

Definition prec : Z := 53.
Definition emax : Z := 1024.

(** An integer literal. *)
Definition ofZ (z : Z) : Number := binary_normalize prec emax z 0 false.

Definition zero : Number := S754_zero false.
Definition one : Number := ofZ 1.

Definition add : Number -> Number -> Number := SFadd prec emax.
Definition sub : Number -> Number -> Number := SFsub prec emax.
Definition mul : Number -> Number -> Number := SFmul prec emax.
Definition div : Number -> Number -> Number := SFdiv prec emax.

(** [a < b] and [a <= b]: false when either side is NaN. *)
Definition lt (a b : Number) : bool := SFltb a b.
Definition le (a b : Number) : bool := SFleb a b.

Definition isNaN (a : Number) : bool :=
  match a with
  | S754_nan => true
  | _ => false
  end.

(** The same value, bit for bit. *)
Definition same (a b : Number) : bool :=
  match a, b with
  | S754_zero s1, S754_zero s2 => Bool.eqb s1 s2
  | S754_infinity s1, S754_infinity s2 => Bool.eqb s1 s2
  | S754_nan, S754_nan => true
  | S754_finite s1 m1 e1, S754_finite s2 m2 e2 =>
      Bool.eqb s1 s2 && Pos.eqb m1 m2 && Z.eqb e1 e2
  | _, _ => false
  end.

(** [Math.min(a, b)]: NaN if either is NaN, and -0 below +0. *)
Definition Math_min (a b : Number) : Number :=
  if isNaN a || isNaN b then S754_nan
  else match SFcompare a b with
       | Some Lt => a
       | Some Gt => b
       | _ => match a with
              | S754_zero true => a
              | _ => b
              end
       end.

(** [Math.max(a, b)]: NaN if either is NaN, and +0 above -0. *)
Definition Math_max (a b : Number) : Number :=
  if isNaN a || isNaN b then S754_nan
  else match SFcompare a b with
       | Some Gt => a
       | Some Lt => b
       | _ => match a with
              | S754_zero false => a
              | _ => b
              end
       end.
End number.

(** ** The image preview dialog

    [PreviewImageDialog], lines 1-199 of
    [web/src/components/PreviewImageDialog.tsx]: the component state, its
    callbacks, and the events that reach them. *)
Module preview.
Import number.

(** [MIN_SCALE = 0.1]: the double nearest to one tenth, 0x3FB999999999999A. *)
Definition MIN_SCALE : Number := S754_finite false 7205759403792794 (-56).
(** [MAX_SCALE = 5] *)
Definition MAX_SCALE : Number := ofZ 5.
(** [SCALE_STEP = 0.25] *)
Definition SCALE_STEP : Number := S754_finite false 4503599627370496 (-54).

Record Props : Set := {
  open : bool;
  imgUrls : list string;
  initialIndex : Number
}.

Record Position : Set := { x : Number; y : Number }.

Record DragStart : Set := {
  startX : Number;
  startY : Number;
  posX : Number;
  posY : Number
}.

(** The [useState] cells and the [dragStartRef] of lines 18-22. *)
Record State : Set := {
  currentIndex : Number;
  scale : Number;
  position : Position;
  isDragging : bool;
  dragStartRef : DragStart
}.

(** What a callback does besides updating the state. *)
Inductive Call : Set :=
| onOpenChange (open : bool)
| preventDefault.

Definition origin : Position := {| x := zero; y := zero |}.

(** The state of a freshly mounted dialog. *)
Definition mount (props : Props) : State :=
  {| currentIndex := initialIndex props; scale := one; position := origin;
     isDragging := false;
     dragStartRef := {| startX := zero; startY := zero; posX := zero; posY := zero |} |}.

Definition setScale (f : Number -> Number) (st : State) : State :=
  {| currentIndex := currentIndex st; scale := f (scale st); position := position st;
     isDragging := isDragging st; dragStartRef := dragStartRef st |}.

Definition setPosition (p : Position) (st : State) : State :=
  {| currentIndex := currentIndex st; scale := scale st; position := p;
     isDragging := isDragging st; dragStartRef := dragStartRef st |}.

Definition setIsDragging (b : bool) (st : State) : State :=
  {| currentIndex := currentIndex st; scale := scale st; position := position st;
     isDragging := b; dragStartRef := dragStartRef st |}.

Definition setCurrentIndex (i : Number) (st : State) : State :=
  {| currentIndex := i; scale := scale st; position := position st;
     isDragging := isDragging st; dragStartRef := dragStartRef st |}.

Definition setDragStart (d : DragStart) (st : State) : State :=
  {| currentIndex := currentIndex st; scale := scale st; position := position st;
     isDragging := isDragging st; dragStartRef := d |}.

(** Line 25. *)
Definition zoomInScale (prev : Number) : Number := Math_min (add prev SCALE_STEP) MAX_SCALE.
(** Line 26. *)
Definition zoomOutScale (prev : Number) : Number := Math_max (sub prev SCALE_STEP) MIN_SCALE.

Definition zoomIn (st : State) : State := setScale zoomInScale st.
Definition zoomOut (st : State) : State := setScale zoomOutScale st.

(** Lines 27-30. *)
Definition resetZoom (st : State) : State :=
  setPosition origin (setScale (fun _ => one) st).

(** [handleWheel], lines 35-42. *)
Definition handleWheel (deltaY : Number) (st : State) : State * list Call :=
  (if lt deltaY zero then zoomIn st else zoomOut st, [preventDefault]).

(** The effect of lines 60-66, run when [initialIndex] or [open] changed. *)
Definition openEffect (props : Props) (st : State) : State :=
  if open props
  then setPosition origin
         (setScale (fun _ => one) (setCurrentIndex (initialIndex props) st))
  else st.

(** [handleMouseMove], lines 72-80; the listener is bound while the dialog is
    open (line 70). *)
Definition handleMouseMove (props : Props) (clientX clientY : Number) (st : State) : State :=
  if negb (open props) then st
  else if negb (isDragging st) then st
  else
    let deltaX := sub clientX (startX (dragStartRef st)) in
    let deltaY := sub clientY (startY (dragStartRef st)) in
    setPosition {| x := add (posX (dragStartRef st)) deltaX;
                   y := add (posY (dragStartRef st)) deltaY |} st.

(** [handleMouseUp], lines 82-84, bound like [handleMouseMove]. *)
Definition handleMouseUp (props : Props) (st : State) : State :=
  if negb (open props) then st else setIsDragging false st.

(** [handleImageMouseDown], lines 94-103. *)
Definition handleImageMouseDown (clientX clientY : Number) (st : State)
  : State * list Call :=
  (setDragStart {| startX := clientX; startY := clientY;
                   posX := x (position st); posY := y (position st) |}
     (setIsDragging true st),
   [preventDefault]).

(** [handleKeyDown], lines 107-134. *)
Definition handleKeyDown (props : Props) (key : string) (metaKey ctrlKey : bool)
    (st : State) : State * list Call :=
  if negb (open props) then (st, [])
  else
    let isMod := metaKey || ctrlKey in
    if js.strictEq key "Escape" then (st, [onOpenChange false])
    else if isMod then
      if js.strictEq key "+" || js.strictEq key "=" then (zoomIn st, [preventDefault])
      else if js.strictEq key "-" then (zoomOut st, [preventDefault])
      else if js.strictEq key "0" then (resetZoom st, [preventDefault])
      else (st, [])
    else (st, []).

(** [handleClose], lines 140-142. *)
Definition handleClose (st : State) : State * list Call := (st, [onOpenChange false]).

(** [handleBackdropClick], lines 144-149; [onBackdrop] is
    [event.target === event.currentTarget]. *)
Definition handleBackdropClick (onBackdrop : bool) (st : State) : State * list Call :=
  if onBackdrop && negb (isDragging st) then handleClose st else (st, []).

(** [imgUrls.length - 1] and the [safeIndex] of line 155. *)
Definition lastIndex (urls : list string) : Number :=
  sub (ofZ (Z.of_nat (List.length urls))) one.

Definition safeIndex (props : Props) (st : State) : Number :=
  Math_max zero (Math_min (currentIndex st) (lastIndex (imgUrls props))).

(** The events that reach the component. *)
Inductive Event : Set :=
| Wheel (deltaY : Number)
| KeyDown (key : string) (metaKey ctrlKey : bool)
| ImageMouseDown (clientX clientY : Number)
| MouseMove (clientX clientY : Number)
| MouseUp
| BackdropClick (onBackdrop : bool)
| CloseClick
| Rerender (props : Props).

(** One event: the callback it reaches.  A re-render with new props runs the
    effect of lines 60-66 when one of its dependencies changed. *)
Definition step (ps : Props * State) (e : Event) : (Props * State) * list Call :=
  let '(props, st) := ps in
  match e with
  | Wheel deltaY => let '(st', calls) := handleWheel deltaY st in ((props, st'), calls)
  | KeyDown key metaKey ctrlKey =>
      let '(st', calls) := handleKeyDown props key metaKey ctrlKey st in
      ((props, st'), calls)
  | ImageMouseDown cx cy =>
      let '(st', calls) := handleImageMouseDown cx cy st in ((props, st'), calls)
  | MouseMove cx cy => ((props, handleMouseMove props cx cy st), [])
  | MouseUp => ((props, handleMouseUp props st), [])
  | BackdropClick onBackdrop =>
      let '(st', calls) := handleBackdropClick onBackdrop st in ((props, st'), calls)
  | CloseClick => let '(st', calls) := handleClose st in ((props, st'), calls)
  | Rerender props' =>
      if same (initialIndex props') (initialIndex props)
         && Bool.eqb (open props') (open props)
      then ((props', st), [])
      else ((props', openEffect props' st), [])
  end.

(** A run of events, with the calls made along the way. *)
Fixpoint run (ps : Props * State) (events : list Event) : (Props * State) * list Call :=
  match events with
  | [] => (ps, [])
  | e :: rest =>
      let '(ps', calls) := step ps e in
      let '(ps'', calls') := run ps' rest in
      (ps'', (calls ++ calls')%list)
  end.

(** The scales reachable from 1 by zooming in and out. *)
Definition addLevel (s : Number) (l : list Number) : list Number :=
  if existsb (same s) l then l else (l ++ [s])%list.

Fixpoint closeLevels (fuel : nat) (l : list Number) : list Number :=
  match fuel with
  | O => l
  | S fuel' =>
      let l' := fold_left (fun acc s => addLevel (zoomOutScale s) (addLevel (zoomInScale s) acc))
                          l l in
      if Nat.eqb (List.length l') (List.length l) then l else closeLevels fuel' l'
  end.

Definition zoomLevels : list Number := Eval vm_compute in closeLevels 200 [one].

(** The events of a drag in progress: pointer moves and wheel turns. *)
Definition dragEvent (e : Event) : bool :=
  match e with
  | MouseMove _ _ | Wheel _ => true
  | _ => false
  end.

(** The pointer position of the last move among the events. *)
Fixpoint lastMove (events : list Event) : option (Number * Number) :=
  match events with
  | [] => None
  | e :: rest =>
      match lastMove rest with
      | Some p => Some p
      | None => match e with
                | MouseMove cx cy => Some (cx, cy)
                | _ => None
                end
      end
  end.
End preview.

(** ** The random review page

    The component of [unnamed/part_001]: the memo of lines 16-54, which
    turns the filters of the filter store into a filter expression and a
    random seed, and the props it hands to the memo list.  [Date],
    [parseInt] and the conversion of a number to a string are built-ins of
    the JavaScript runtime and are taken as given. *)
Module review.
Import number.

Record MemoFilter : Set := { factor : string; value : string }.

Record Runtime : Set := {
  (* new Date().getTime() *)
  Date_now : Number;
  (* new Date(s).getTime() *)
  Date_getTime : string -> Number;
  (* new Date(s).getTimezoneOffset() *)
  Date_getTimezoneOffset : string -> Number;
  (* parseInt(s) *)
  parseInt : string -> Number;
  (* String(n), as in a template literal or n.toString() *)
  Number_toString : Number -> string
}.

(** The double quote, written by its code. *)
Definition quote : string := String (ascii_of_nat 34) EmptyString.

(** [Array.prototype.join] *)
Definition join (sep : string) (parts : list string) : string := String.concat sep parts.

(** The four variables the loop of lines 21-43 updates. *)
Record Acc : Set := {
  conditions : list string;
  contentSearch : list string;
  tagSearch : list string;
  randomSeed : Number
}.

(** The seed before the loop, line 20. *)
Definition defaultSeed (rt : Runtime) : Number :=
  parseInt rt (Number_toString rt (div (Date_now rt) (ofZ 1000))).

Definition start (rt : Runtime) : Acc :=
  {| conditions := []; contentSearch := []; tagSearch := [];
     randomSeed := defaultSeed rt |}.

Definition pushCondition (acc : Acc) (cs : list string) : Acc :=
  {| conditions := (conditions acc ++ cs)%list; contentSearch := contentSearch acc;
     tagSearch := tagSearch acc; randomSeed := randomSeed acc |}.

(** Lines 35-38: the start of the day in UTC seconds. *)
Definition timestampAfter (rt : Runtime) (v : string) : Number :=
  let filterUtcTimestamp :=
    add (Date_getTime rt v) (mul (mul (Date_getTimezoneOffset rt v) (ofZ 60)) (ofZ 1000)) in
  div filterUtcTimestamp (ofZ 1000).

(** One turn of the loop, lines 22-42. *)
Definition visit (rt : Runtime) (acc : Acc) (filter : MemoFilter) : Acc :=
  if js.strictEq (factor filter) "contentSearch" then
    {| conditions := conditions acc;
       contentSearch := (contentSearch acc ++ [(quote ++ value filter ++ quote)%string])%list;
       tagSearch := tagSearch acc; randomSeed := randomSeed acc |}
  else if js.strictEq (factor filter) "tagSearch" then
    {| conditions := conditions acc; contentSearch := contentSearch acc;
       tagSearch := (tagSearch acc ++ [(quote ++ value filter ++ quote)%string])%list;
       randomSeed := randomSeed acc |}
  else if js.strictEq (factor filter) "pinned" then pushCondition acc ["pinned == true"]
  else if js.strictEq (factor filter) "property.hasLink" then
    pushCondition acc ["has_link == true"]
  else if js.strictEq (factor filter) "property.hasTaskList" then
    pushCondition acc ["has_task_list == true"]
  else if js.strictEq (factor filter) "property.hasCode" then
    pushCondition acc ["has_code == true"]
  else if js.strictEq (factor filter) "displayTime" then
    let after := timestampAfter rt (value filter) in
    pushCondition acc
      ["display_time_after == " ++ Number_toString rt after;
       "display_time_before == "
         ++ Number_toString rt (add after (mul (mul (ofZ 60) (ofZ 60)) (ofZ 24)))]
  else if js.strictEq (factor filter) "seed" then
    {| conditions := conditions acc; contentSearch := contentSearch acc;
       tagSearch := tagSearch acc; randomSeed := parseInt rt (value filter) |}
  else acc.

(** The memo of lines 16-54: the filter expression and the seed. *)
Definition buildFilter (rt : Runtime) (filters : list MemoFilter) : string * Number :=
  let acc := fold_left (visit rt) filters (start rt) in
  let conditions1 :=
    if (0 <? List.length (contentSearch acc))%nat
    then (conditions acc
            ++ [("content_search == [" ++ join ", " (contentSearch acc) ++ "]")%string])%list
    else conditions acc in
  let conditions2 :=
    if (0 <? List.length (tagSearch acc))%nat
    then (conditions1
            ++ [("tag_search == [" ++ join ", " (tagSearch acc) ++ "]")%string])%list
    else conditions1 in
  (join " && " conditions2, randomSeed acc).

Record Shortcut : Set := { shortcutId : string; shortcutFilter : string }.

(** What the component reads from its stores and hooks. *)
Record Stores : Set := {
  userName : string;                 (* useCurrentUser().name *)
  shortcut : string;                 (* memoFilterStore.shortcut *)
  filters : list MemoFilter;         (* memoFilterStore.filters *)
  shortcuts : list Shortcut          (* userStore.state.shortcuts *)
}.

(** The props handed to [PagedMemoList], lines 57-65 (the two function props
    apart). *)
Record ListProps : Set := {
  owner : string;
  filter : string;
  oldFilter : string;
  sort : string
}.

(** [RandomReview], lines 11-67. *)
Definition RandomReview (rt : Runtime) (stores : Stores) : ListProps :=
  let selectedShortcut :=
    find (fun s => js.strictEq (shortcutId s) (shortcut stores)) (shortcuts stores) in
  let '(memoListFilter, seed) := buildFilter rt (filters stores) in
  {| owner := userName stores;
     filter := match selectedShortcut with
               | Some s => if js.truthy (shortcutFilter s) then shortcutFilter s else ""
               | None => ""
               end;
     oldFilter := memoListFilter;
     sort := "random:" ++ Number_toString rt seed |}.

(** The clauses one filter contributes on its own. *)
Definition ownClauses (rt : Runtime) (f : MemoFilter) : list string :=
  conditions (visit rt {| conditions := []; contentSearch := []; tagSearch := [];
                          randomSeed := zero |} f).

Definition hasFactor (name : string) (f : MemoFilter) : bool :=
  js.strictEq (factor f) name.

(** The values of the filters of one factor, each in double quotes. *)
Definition quotedValues (name : string) (fs : list MemoFilter) : list string :=
  map (fun f => quote ++ value f ++ quote) (List.filter (hasFactor name) fs).

(** The clause of a search list: none for an empty list. *)
Definition searchClause (field : string) (quoted : list string) : list string :=
  match quoted with
  | [] => []
  | _ => [field ++ " == [" ++ join ", " quoted ++ "]"]
  end.

(** The seed of the last [seed] filter, the default seed without one. *)
Definition lastSeed (rt : Runtime) (fs : list MemoFilter) : Number :=
  fold_left (fun seed f => if hasFactor "seed" f then parseInt rt (value f) else seed)
            fs (defaultSeed rt).

(** The factors the loop acts on. *)
Definition knownFactors : list string :=
  ["contentSearch"; "tagSearch"; "pinned"; "property.hasLink"; "property.hasTaskList";
   "property.hasCode"; "displayTime"; "seed"].

Definition isKnown (f : MemoFilter) : bool :=
  existsb (js.strictEq (factor f)) knownFactors.

(** A runtime for examples: dates are second counts, numbers print in
    decimal when they are small integers. *)
Definition sampleRuntime : Runtime :=
  {| Date_now := ofZ 1700000000000;
     Date_getTime := fun s => match parseInt32 s with
                              | Some z => ofZ (z * 1000)
                              | None => S754_nan
                              end;
     Date_getTimezoneOffset := fun _ => zero;
     parseInt := fun s => match NilZero.int_of_string s with
                          | Some d => ofZ (Z.of_int d)
                          | None => S754_nan
                          end;
     Number_toString := fun n =>
       match n with
       | S754_zero _ => "0"
       | S754_finite s m e =>
           (if s then "-" else "")
           ++ formatInt (if (0 <=? e)%Z then Z.pos m * 2 ^ e else Z.pos m / 2 ^ (- e))
       | _ => "NaN"
       end |}.
End review.

(** ** The build scripts

    [build.sh] and its earlier version [unnamed/part_000].  A run is the
    sequence of lines echoed and commands started, and the exit status.  The
    exit status of each external command is given by the environment; [echo]
    and the assignments succeed.  Under [set -e] a failing command ends the
    script with its status, unless it is the condition of an [if]. *)
Module build.
Inductive Cmd : Set :=
| command_v_pnpm                (* command -v pnpm *)
| cd_web                        (* cd web/ *)
| pnpm_install
| pnpm_release
| cd_up                         (* cd .. *)
| docker_buildx_version
| docker_buildx_ls
| grep_q_memos_builder          (* grep -q "memos-builder" *)
| docker_buildx_create          (* docker buildx create --name memos-builder --use *)
| docker_buildx_inspect         (* docker buildx inspect --bootstrap *)
| docker_buildx_use             (* docker buildx use memos-builder *)
| docker_buildx_build           (* docker buildx build --platform ... --load . *)
| docker_build                  (* docker build -f scripts/Dockerfile -t memos:canary . *)
| docker_compose_down
| docker_compose_up.            (* docker compose up -d *)

Inductive Action : Set :=
| Echo (line : string)
| Run (c : Cmd).

(** The exit status of each command. *)
Definition Env : Set := Cmd -> nat.

(** A piece of script: what it does, and whether it goes on (with a value)
    or exits (with a status). *)
Definition Script (A : Type) : Type := (list Action * (A + nat))%type.

Definition ret {A : Type} (a : A) : Script A := ([], inl a).

Definition bind {A B : Type} (m : Script A) (k : A -> Script B) : Script B :=
  match m with
  | (done, inl a) => let '(more, r) := k a in ((done ++ more)%list, r)
  | (done, inr status) => (done, inr status)
  end.

Definition echo (line : string) : Script unit := ([Echo line], inl tt).

(** A simple command under [set -e]. *)
Definition run (env : Env) (c : Cmd) : Script unit :=
  ([Run c], if Nat.eqb (env c) 0 then inl tt else inr (env c)).

(** A command as the condition of an [if]: its success. *)
Definition succeeds (env : Env) (c : Cmd) : Script bool :=
  ([Run c], inl (Nat.eqb (env c) 0)).

(** [exit n] *)
Definition exit {A : Type} (status : nat) : Script A := ([], inr status).

Notation "x <- m ;; k" := (bind m (fun x => k))
  (at level 61, m at next level, right associativity).
Notation "m ;; k" := (bind m (fun _ => k))
  (at level 61, right associativity).

(** Lines 22-27 of [build.sh]. *)
Definition checkPnpm (env : Env) : Script unit :=
  found <- succeeds env command_v_pnpm ;;
  if negb found then
    echo "Error: pnpm is not installed. Please install pnpm first." ;;
    echo "You can install it with: npm install -g pnpm" ;;
    exit 1
  else ret tt.

(** Lines 29-36. *)
Definition buildFrontend (env : Env) : Script unit :=
  echo "=== Building Frontend ===" ;;
  run env cd_web ;;
  echo "Installing frontend dependencies..." ;;
  run env pnpm_install ;;
  echo "Building frontend for production..." ;;
  run env pnpm_release ;;
  run env cd_up.

(** Lines 38-71, for the value of the multi-arch test. *)
Definition buildImage (env : Env) (multiArch : bool) : Script unit :=
  echo "=== Building Docker Image ===" ;;
  if multiArch then
    echo "Building multi-architecture image (requires Docker Buildx)..." ;;
    available <- succeeds env docker_buildx_version ;;
    (if negb available then
       echo "Error: Docker Buildx is not available. Please install Docker Buildx for multi-arch builds." ;;
       exit 1
     else ret tt) ;;
    (* docker buildx ls | grep -q "memos-builder": the status of the pipeline
       is that of grep *)
    _ <- succeeds env docker_buildx_ls ;;
    exists_ <- succeeds env grep_q_memos_builder ;;
    (if negb exists_ then
       echo "Creating buildx builder..." ;;
       run env docker_buildx_create ;;
       run env docker_buildx_inspect
     else run env docker_buildx_use) ;;
    run env docker_buildx_build
  else
    echo "Building single architecture image..." ;;
    run env docker_build.

(** Lines 73-74. *)
Definition buildComplete : Script unit :=
  echo "=== Build Complete ===" ;;
  echo "Docker image 'memos:canary' has been built successfully!".

(** Lines 76-85. *)
Definition runCompose (env : Env) (RUN_COMPOSE : bool) : Script unit :=
  if RUN_COMPOSE then
    echo "" ;;
    echo "=== Running Docker Compose ===" ;;
    echo "Stopping existing containers..." ;;
    run env docker_compose_down ;;
    echo "Starting containers with new image..." ;;
    run env docker_compose_up ;;
    echo "Containers are now running!"
  else ret tt.

(** The loop of lines 11-20: the two flags after the argument [arg]. *)
Definition parseArg (flags : bool * bool) (arg : string) : bool * bool :=
  let '(RUN_COMPOSE, MULTI_ARCH) := flags in
  if String.eqb arg "--run" then (true, MULTI_ARCH)
  else if String.eqb arg "--multi-arch" then (RUN_COMPOSE, true)
  else (RUN_COMPOSE, MULTI_ARCH).

Definition parseArgs (args : list string) : bool * bool :=
  fold_left parseArg args (false, false).

(** The exit status of a script that ran to its end is that of its last
    command, an [echo]. *)
Definition finish (s : Script unit) : list Action * nat :=
  match s with
  | (done, inl _) => (done, O)
  | (done, inr status) => (done, status)
  end.

(** [build.sh] *)
Definition build_sh (env : Env) (args : list string) : list Action * nat :=
  finish (
    echo "=== Building Memos Docker Image ===" ;;
    let '(RUN_COMPOSE, MULTI_ARCH) := parseArgs args in
    checkPnpm env ;;
    buildFrontend env ;;
    buildImage env MULTI_ARCH ;;
    buildComplete ;;
    runCompose env RUN_COMPOSE ;;
    echo "" ;;
    echo "Usage:" ;;
    echo "  Run the container: docker run -d -p 5230:5230 -v ~/.memos/:/var/opt/memos memos:canary" ;;
    echo "  Build multi-arch:  ./build.sh --multi-arch" ;;
    echo "  Build and run:     ./build.sh --run" ;;
    echo "  Build multi-arch and run: ./build.sh --multi-arch --run").

(** The earlier script, [unnamed/part_000]: the multi-arch test reads the
    first argument only, and there is no compose step. *)
Definition build_sh_v0 (env : Env) (args : list string) : list Action * nat :=
  finish (
    echo "=== Building Memos Docker Image ===" ;;
    checkPnpm env ;;
    buildFrontend env ;;
    buildImage env (String.eqb (hd "" args) "--multi-arch") ;;
    buildComplete ;;
    echo "" ;;
    echo "Usage:" ;;
    echo "  Run the container: docker run -d -p 5230:5230 -v ~/.memos/:/var/opt/memos memos:canary" ;;
    echo "  Build multi-arch:  ./build.sh --multi-arch").

(** The commands started during a run, in order. *)
Fixpoint commands (trace : list Action) : list Cmd :=
  match trace with
  | [] => []
  | Run c :: rest => c :: commands rest
  | Echo _ :: rest => commands rest
  end.

(** An environment in which every command succeeds but the listed ones,
    which exit with status 1. *)
Definition Cmd_eqb (a b : Cmd) : bool :=
  match a, b with
  | command_v_pnpm, command_v_pnpm | cd_web, cd_web | pnpm_install, pnpm_install
  | pnpm_release, pnpm_release | cd_up, cd_up
  | docker_buildx_version, docker_buildx_version | docker_buildx_ls, docker_buildx_ls
  | grep_q_memos_builder, grep_q_memos_builder
  | docker_buildx_create, docker_buildx_create
  | docker_buildx_inspect, docker_buildx_inspect | docker_buildx_use, docker_buildx_use
  | docker_buildx_build, docker_buildx_build | docker_build, docker_build
  | docker_compose_down, docker_compose_down | docker_compose_up, docker_compose_up => true
  | _, _ => false
  end.

Definition failingOnly (failing : list Cmd) : Env :=
  fun c => if existsb (Cmd_eqb c) failing then 1%nat else 0%nat.
End build.

(** * Properties of the reaction handlers *)

(** Evaluate a handler along the path fixed by the hypotheses in scope. *)
Ltac step_handler :=
  repeat match goal with
         | H : ?lhs = _ |- context [?lhs] => rewrite H
         end;
  cbn [fst snd].

Lemma append_loop_is_map {A B : Type} (f : A -> B) (l : list A) (acc : list B) :
  fold_left (fun acc x => (acc ++ [f x])%list) l acc = (acc ++ map f l)%list.
Proof.
  revert acc; induction l as [|x l IH]; intros acc; simpl.
  - now rewrite app_nil_r.
  - rewrite IH, <- app_assoc. reflexivity.
Qed.

Section HandlerFacts.
Context {svc : Service}.

(** The webhook attempt never touches the store. *)
Lemma notifyMemoReacted_db (w : World) ctx cid msg :
  db (notifyMemoReacted w ctx cid msg) = db w.
Proof.
  unfold notifyMemoReacted.
  destruct (ExtractMemoUIDFromName cid); [|reflexivity].
  destruct (Store_GetMemo _ _ _) as [[memo|]|]; try reflexivity.
  destruct (Store_ListReactions _ _ _); destruct (Store_ListAttachments _ _ _);
    destruct (convertMemoFromStore _ _ _ _ _); try reflexivity;
    destruct (DispatchMemoReactedWebhook _ _ _ _); reflexivity.
Qed.

(** No path of the delete handler ends in a not-found status. *)
Lemma DeleteMemoReaction_never_NotFound (w : World) ctx request s :
  snd (DeleteMemoReaction w ctx request) = Error s ->
  status.Code s <> codes.NotFound.
Proof.
  unfold DeleteMemoReaction.
  destruct (fetchCurrentUser _ _) as [[user|]|e]; cbn [snd];
    try (intros [= <-]; discriminate).
  destruct (ExtractMemoReactionIDFromName _) as [[uid rid]|e]; cbn [snd];
    try (intros [= <-]; discriminate).
  destruct (Store_GetReaction _ _ _) as [[reaction|]|e]; cbn [snd];
    try (intros [= <-]; discriminate).
  destruct (negb _ && negb _); cbn [snd]; try (intros [= <-]; discriminate).
  destruct (Store_DeleteReaction _ _ _) as [db1 [e|]]; cbn [snd];
    try (intros [= <-]; discriminate).
Qed.
End HandlerFacts.

(** C1.  For an authenticated requester, deleting a reaction id the store
    does not hold and deleting an existing reaction created by another user
    (the requester not being a super user) end in the very same
    PermissionDenied status, leave the world as it was, and no call of the
    handler ever ends in a NotFound status. *)
Theorem DeleteMemoReaction_masks_absence :
  forall (svc : Service) (w : World) (ctx : Context)
         (absent present : v1pb.DeleteMemoReactionRequest)
         (user : store.User) (uid1 uid2 : string) (id1 id2 : Z)
         (reaction : store.Reaction),
    fetchCurrentUser (db w) ctx = inl (Some user) ->
    ExtractMemoReactionIDFromName (v1pb.DeleteReq_Name absent) = inl (uid1, id1) ->
    Store_GetReaction (db w) ctx (findByID id1) = inl None ->
    ExtractMemoReactionIDFromName (v1pb.DeleteReq_Name present) = inl (uid2, id2) ->
    Store_GetReaction (db w) ctx (findByID id2) = inl (Some reaction) ->
    store.CreatorID reaction <> store.User_ID user ->
    isSuperUser user = false ->
    DeleteMemoReaction w ctx absent = (w, Error permissionDenied)
    /\ DeleteMemoReaction w ctx present = (w, Error permissionDenied)
    /\ (forall w' ctx' request s,
          snd (DeleteMemoReaction w' ctx' request) = Error s ->
          status.Code s <> codes.NotFound).
Proof.
  intros svc w ctx absent present user uid1 uid2 id1 id2 reaction
         Huser Hname1 Hget1 Hname2 Hget2 Hother Hplain.
  repeat split.
  - unfold DeleteMemoReaction. step_handler. reflexivity.
  - unfold DeleteMemoReaction. step_handler.
    apply Z.eqb_neq in Hother. rewrite Hother. reflexivity.
  - intros w' ctx' request s. apply DeleteMemoReaction_never_NotFound.
Qed.

(** C2.  When the requester is authenticated and the store upsert returns a
    reaction, the handler returns that reaction, converted, and no error,
    whatever the webhook steps do: the service is arbitrary, so memo
    resolution, both list fetches, the conversion and the delivery may each
    fail.  The store is left as the upsert left it. *)
Theorem UpsertMemoReaction_webhook_nonfatal :
  forall (svc : Service) (w : World) (ctx : Context)
         (request : v1pb.UpsertMemoReactionRequest)
         (user : store.User) (reqReaction : v1pb.Reaction)
         (db1 : StoreState) (reaction : store.Reaction),
    fetchCurrentUser (db w) ctx = inl (Some user) ->
    v1pb.UpsertReq_Reaction request = Some reqReaction ->
    Store_UpsertReaction (db w) ctx (newStoreReaction user reqReaction)
      = (db1, inl reaction) ->
    snd (UpsertMemoReaction w ctx request) = Return (convertReactionFromStore reaction)
    /\ db (fst (UpsertMemoReaction w ctx request)) = db1.
Proof.
  intros svc w ctx request user reqReaction db1 reaction Huser Hreq Hupsert.
  unfold UpsertMemoReaction. step_handler.
  split; [reflexivity|]. now rewrite notifyMemoReacted_db.
Qed.

(** C3.  For an authenticated requester and a reaction the store holds (the
    store's own delete call not failing): the handler succeeds exactly when
    the requester's id is the reaction's [CreatorID] or the requester is a
    super user, and then the store is what the store's delete made of it;
    otherwise it returns PermissionDenied and the world is untouched.  The
    decision reads the reaction's creator only; no memo is consulted. *)
Theorem DeleteMemoReaction_authorization :
  forall (svc : Service) (w : World) (ctx : Context)
         (request : v1pb.DeleteMemoReactionRequest)
         (user : store.User) (uid : string) (reactionID : Z)
         (reaction : store.Reaction),
    fetchCurrentUser (db w) ctx = inl (Some user) ->
    ExtractMemoReactionIDFromName (v1pb.DeleteReq_Name request) = inl (uid, reactionID) ->
    Store_GetReaction (db w) ctx (findByID reactionID) = inl (Some reaction) ->
    snd (Store_DeleteReaction (db w) ctx {| store.Delete_ID := reactionID |}) = None ->
    let authorized :=
      (store.CreatorID reaction =? store.User_ID user) || isSuperUser user in
    (snd (DeleteMemoReaction w ctx request) = Return v1pb.mkEmpty <-> authorized = true)
    /\ (authorized = true ->
        fst (DeleteMemoReaction w ctx request)
        = set_db w (fst (Store_DeleteReaction (db w) ctx
                           {| store.Delete_ID := reactionID |})))
    /\ (authorized = false ->
        DeleteMemoReaction w ctx request = (w, Error permissionDenied)).
Proof.
  intros svc w ctx request user uid reactionID reaction Huser Hname Hget Hdel authorized.
  unfold DeleteMemoReaction. step_handler.
  subst authorized.
  destruct (Store_DeleteReaction _ _ _) as [db1 derr]. cbn [snd fst] in *. subst derr.
  destruct (store.CreatorID reaction =? store.User_ID user);
    destruct (isSuperUser user); cbn; repeat split; intros; try discriminate;
    reflexivity.
Qed.

(** C4.  When the request carries no authenticated identity, the upsert and
    the delete handler both fail with Unauthenticated and leave the world
    (store, log and webhook calls) exactly as it was. *)
Theorem handlers_require_authentication :
  forall (svc : Service) (w : World) (ctx : Context),
    fetchCurrentUser (db w) ctx = inl None ->
    (forall request, UpsertMemoReaction w ctx request = (w, Error unauthenticated))
    /\ (forall request, DeleteMemoReaction w ctx request = (w, Error unauthenticated)).
Proof.
  intros svc w ctx Hanon. split; intros request.
  - unfold UpsertMemoReaction. step_handler. reflexivity.
  - unfold DeleteMemoReaction. step_handler. reflexivity.
Qed.

(** C8.  Once the reaction is stored and the memo resolved, a failed fetch
    of the reaction list, or of the attachment list, is replaced by the
    empty list and logged as a warning, and the assembly goes on: the
    payload is converted from the substituted lists and, when the conversion
    succeeds, handed to the dispatcher.  The handler still returns the
    created reaction. *)
Theorem UpsertMemoReaction_fetch_failures_become_empty :
  forall (svc : Service) (w : World) (ctx : Context)
         (request : v1pb.UpsertMemoReactionRequest)
         (user : store.User) (reqReaction : v1pb.Reaction)
         (db1 : StoreState) (reaction : store.Reaction)
         (memoUID : string) (memo : store.Memo),
    fetchCurrentUser (db w) ctx = inl (Some user) ->
    v1pb.UpsertReq_Reaction request = Some reqReaction ->
    Store_UpsertReaction (db w) ctx (newStoreReaction user reqReaction)
      = (db1, inl reaction) ->
    ExtractMemoUIDFromName (v1pb.ContentId reqReaction) = inl memoUID ->
    Store_GetMemo db1 ctx
      {| store.FindMemo_ID := None; store.FindMemo_UID := Some memoUID |}
      = inl (Some memo) ->
    let listed :=
      Store_ListReactions db1 ctx (findByContentID (v1pb.ContentId reqReaction)) in
    let attached :=
      Store_ListAttachments db1 ctx
        {| store.FindAttachment_MemoID := Some (store.Memo_ID memo) |} in
    let reactions := match listed with inl rs => rs | inr _ => [] end in
    let attachments := match attached with inl ats => ats | inr _ => [] end in
    let warnings :=
      (match listed with
       | inr err => [Warn "Failed to list reactions for webhook" err]
       | inl _ => []
       end ++
       match attached with
       | inr err => [Warn "Failed to list attachments for webhook" err]
       | inl _ => []
       end)%list in
    let reactionMessage := convertReactionFromStore reaction in
    let w' := fst (UpsertMemoReaction w ctx request) in
    snd (UpsertMemoReaction w ctx request) = Return reactionMessage
    /\ match convertMemoFromStore db1 ctx memo reactions attachments with
       | inl memoMessage =>
           outbox w' = (outbox w ++ [(memoMessage, reactionMessage)])%list
           /\ logs w' =
              (logs w ++ warnings ++
               match DispatchMemoReactedWebhook db1 ctx memoMessage reactionMessage with
               | Some err => [Warn "Failed to dispatch memo reacted webhook" err]
               | None => []
               end)%list
       | inr err =>
           outbox w' = outbox w
           /\ logs w' =
              (logs w ++ warnings ++
               [Warn "Failed to convert memo for reaction webhook" err])%list
       end.
Proof.
  intros svc w ctx request user reqReaction db1 reaction memoUID memo
         Huser Hreq Hupsert Huid Hmemo.
  cbv zeta. unfold UpsertMemoReaction. step_handler.
  split; [reflexivity|].
  unfold notifyMemoReacted. cbn [db set_db]. step_handler.
  destruct (Store_ListReactions db1 ctx _) as [rs|e1];
    destruct (Store_ListAttachments db1 ctx _) as [ats|e2];
    destruct (convertMemoFromStore db1 ctx memo _ _) as [mm|e3];
    try destruct (DispatchMemoReactedWebhook db1 ctx mm _) as [e4|];
    cbn; rewrite ?app_nil_r, <- ?app_assoc; split; reflexivity.
Qed.

(** C9.  Whatever the request context (signed in or anonymous), the list
    handler asks the store for the reactions of the content id alone and
    returns every reaction the store answers with, each converted, in the
    store's order: it looks up no user and filters nothing. *)
Theorem ListMemoReactions_returns_all :
  forall (svc : Service) (w : World) (ctx : Context)
         (request : v1pb.ListMemoReactionsRequest)
         (stored : list store.Reaction),
    Store_ListReactions (db w) ctx
      {| store.Find_ID := None; store.Find_CreatorID := None;
         store.Find_ContentID := Some (v1pb.ListReq_Name request);
         store.Find_ReactionType := None |} = inl stored ->
    ListMemoReactions w ctx request
    = (w, Return {| v1pb.Reactions := map convertReactionFromStore stored |}).
Proof.
  intros svc w ctx request stored Hlist.
  unfold ListMemoReactions. rewrite Hlist.
  now rewrite append_loop_is_map.
Qed.

(** In the in-memory service the answer is every stored reaction of the
    content id, for every context: no user lookup, no ownership or
    visibility test. *)
Lemma ListMemoReactions_mem_all (d : Mem.DB) lg ob (ctx : Mem.Ctx) (name : string) :
  Mem.fails d Mem.OpListReactions = false ->
  ListMemoReactions {| db := d; logs := lg; outbox := ob |} ctx
    {| v1pb.ListReq_Name := name |}
  = ({| db := d; logs := lg; outbox := ob |},
     Return {| v1pb.Reactions :=
                 map convertReactionFromStore
                     (filter (fun r => (name =? store.ContentID r)%string)
                             (Mem.reactions d)) |}).
Proof.
  intros Hok.
  unfold ListMemoReactions. cbn [db Store_ListReactions memService].
  unfold Mem.ListReactions. rewrite Hok, append_loop_is_map. cbn [app].
  do 4 f_equal. apply filter_ext. intros r. unfold Mem.matchesFind. cbn.
  now rewrite andb_true_r.
Qed.

(** C10.  For an authenticated requester the record handed to the store
    carries the requester's own id as creator and takes only the content id
    and the reaction type from the request, so two requests that differ in
    the other fields of their reaction behave alike; when the store returns
    the stored record with that creator, the returned message is named
    content id, a slash, the reaction-name prefix and the decimal id, and its
    creator is the user-name prefix followed by the requester's id. *)
Theorem UpsertMemoReaction_creator_is_requester :
  forall (svc : Service) (w : World) (ctx : Context)
         (request : v1pb.UpsertMemoReactionRequest)
         (user : store.User) (reqReaction : v1pb.Reaction),
    fetchCurrentUser (db w) ctx = inl (Some user) ->
    v1pb.UpsertReq_Reaction request = Some reqReaction ->
    let handed :=
      {| store.ID := 0; store.CreatedTs := 0;
         store.CreatorID := store.User_ID user;
         store.ContentID := v1pb.ContentId reqReaction;
         store.ReactionType := v1pb.ReactionType reqReaction |} in
    db (fst (UpsertMemoReaction w ctx request))
      = fst (Store_UpsertReaction (db w) ctx handed)
    /\ (forall name creator created,
          UpsertMemoReaction w ctx
            {| v1pb.UpsertReq_Name := v1pb.UpsertReq_Name request;
               v1pb.UpsertReq_Reaction :=
                 Some {| v1pb.Name := name; v1pb.Creator := creator;
                         v1pb.ContentId := v1pb.ContentId reqReaction;
                         v1pb.ReactionType := v1pb.ReactionType reqReaction;
                         v1pb.CreateTime := created |} |}
          = UpsertMemoReaction w ctx request)
    /\ (forall reaction,
          snd (Store_UpsertReaction (db w) ctx handed) = inl reaction ->
          store.CreatorID reaction = store.CreatorID handed ->
          exists message,
            snd (UpsertMemoReaction w ctx request) = Return message
            /\ v1pb.Name message
               = store.ContentID reaction ++ "/" ++ ReactionNamePrefix
                 ++ formatInt (store.ID reaction)
            /\ v1pb.Creator message
               = UserNamePrefix ++ formatInt (store.User_ID user)).
Proof.
  intros svc w ctx request user reqReaction Huser Hreq handed.
  assert (Hrun : forall req rr,
             v1pb.UpsertReq_Reaction req = Some rr ->
             v1pb.ContentId rr = v1pb.ContentId reqReaction ->
             v1pb.ReactionType rr = v1pb.ReactionType reqReaction ->
             UpsertMemoReaction w ctx req
             = match Store_UpsertReaction (db w) ctx handed with
               | (db1, inr _) =>
                   (set_db w db1,
                    Error (status.Errorf codes.Internal "failed to upsert reaction"))
               | (db1, inl reaction) =>
                   (notifyMemoReacted (set_db w db1) ctx (v1pb.ContentId reqReaction)
                      (convertReactionFromStore reaction),
                    Return (convertReactionFromStore reaction))
               end).
  { intros req rr Hrr Hcid Hty. unfold UpsertMemoReaction. rewrite Huser, Hrr.
    unfold newStoreReaction. rewrite Hcid, Hty. fold handed.
    destruct (Store_UpsertReaction (db w) ctx handed) as [db1 [reaction|e]];
      reflexivity. }
  repeat split.
  - rewrite (Hrun request reqReaction Hreq eq_refl eq_refl).
    destruct (Store_UpsertReaction (db w) ctx handed) as [db1 [reaction|e]];
      cbn [fst]; [apply notifyMemoReacted_db | reflexivity].
  - intros name creator created.
    rewrite (Hrun request reqReaction Hreq eq_refl eq_refl).
    eapply Hrun; [cbn; reflexivity | reflexivity | reflexivity].
  - intros reaction Hstored Hcreator.
    exists (convertReactionFromStore reaction).
    rewrite (Hrun request reqReaction Hreq eq_refl eq_refl).
    destruct (Store_UpsertReaction (db w) ctx handed) as [db1 res].
    cbn [snd] in Hstored. subst res. cbn [snd].
    repeat split. cbn. now rewrite Hcreator.
Qed.

(** ** The handlers on the sample world *)

Lemma DeleteMemoReaction_masks_absence_witness :
  DeleteMemoReaction (Sample.world []) (Some 3) (Sample.unreact "memos/m1/reactions/99")
  = (Sample.world [], Error permissionDenied)
  /\ DeleteMemoReaction (Sample.world []) (Some 3) (Sample.unreact "memos/m1/reactions/1")
     = (Sample.world [], Error permissionDenied).
Proof.
  destruct (DeleteMemoReaction_masks_absence memService (Sample.world []) (Some 3)
              (Sample.unreact "memos/m1/reactions/99")
              (Sample.unreact "memos/m1/reactions/1")
              Sample.carol "m1" "m1" 99 1 Sample.r1
              eq_refl eq_refl eq_refl eq_refl eq_refl
              ltac:(discriminate) eq_refl) as [Habsent [Hpresent _]].
  split; assumption.
Defined.

Lemma UpsertMemoReaction_webhook_nonfatal_witness :
  snd (UpsertMemoReaction
         (Sample.world [Mem.OpListAttachments; Mem.OpConvertMemo; Mem.OpDispatch])
         (Some 3) (Sample.react "memos/m1" "party"))
  = Return Sample.party.
Proof.
  refine (proj1 (UpsertMemoReaction_webhook_nonfatal memService
                   (Sample.world [Mem.OpListAttachments; Mem.OpConvertMemo; Mem.OpDispatch])
                   (Some 3) (Sample.react "memos/m1" "party") Sample.carol _ _ _
                   eq_refl eq_refl eq_refl)).
Defined.

Lemma DeleteMemoReaction_authorization_witness :
  snd (DeleteMemoReaction (Sample.world []) (Some 3)
         (Sample.unreact "memos/m1/reactions/2")) = Return v1pb.mkEmpty
  /\ DeleteMemoReaction (Sample.world []) (Some 2)
       (Sample.unreact "memos/m1/reactions/2")
     = (Sample.world [], Error permissionDenied).
Proof.
  split.
  - destruct (DeleteMemoReaction_authorization memService (Sample.world []) (Some 3)
                (Sample.unreact "memos/m1/reactions/2") Sample.carol "m1" 2 Sample.r2
                eq_refl eq_refl eq_refl eq_refl) as [Hiff _].
    apply Hiff. reflexivity.
  - destruct (DeleteMemoReaction_authorization memService (Sample.world []) (Some 2)
                (Sample.unreact "memos/m1/reactions/2") Sample.bob "m1" 2 Sample.r2
                eq_refl eq_refl eq_refl eq_refl) as [_ [_ Hdenied]].
    apply Hdenied. reflexivity.
Defined.

Lemma handlers_require_authentication_witness :
  UpsertMemoReaction (Sample.world []) None (Sample.react "memos/m1" "party")
  = (Sample.world [], Error unauthenticated)
  /\ DeleteMemoReaction (Sample.world []) None (Sample.unreact "memos/m1/reactions/1")
     = (Sample.world [], Error unauthenticated).
Proof.
  destruct (handlers_require_authentication memService (Sample.world []) None eq_refl)
    as [Hupsert Hdelete].
  split; [apply Hupsert | apply Hdelete].
Defined.

Lemma UpsertMemoReaction_fetch_failures_become_empty_witness :
  let w' := fst (UpsertMemoReaction
                   (Sample.world [Mem.OpListReactions; Mem.OpListAttachments])
                   (Some 3) (Sample.react "memos/m1" "party")) in
  outbox w'
  = [({| Mem.Payload_Name := "memos/m1"; Mem.Payload_Reactions := [];
         Mem.Payload_Attachments := [] |}, Sample.party)]
  /\ logs w'
     = [Warn "Failed to list reactions for webhook" "database is closed";
        Warn "Failed to list attachments for webhook" "database is closed"].
Proof.
  exact (proj2 (UpsertMemoReaction_fetch_failures_become_empty memService
                  (Sample.world [Mem.OpListReactions; Mem.OpListAttachments])
                  (Some 3) (Sample.react "memos/m1" "party") Sample.carol _ _ _
                  "m1" Sample.m1 eq_refl eq_refl eq_refl eq_refl eq_refl)).
Defined.

Lemma ListMemoReactions_returns_all_witness :
  ListMemoReactions (Sample.world []) None {| v1pb.ListReq_Name := "memos/m1" |}
  = (Sample.world [],
     Return {| v1pb.Reactions :=
                 [convertReactionFromStore Sample.r1; convertReactionFromStore Sample.r2] |}).
Proof.
  exact (ListMemoReactions_returns_all memService (Sample.world []) None
           {| v1pb.ListReq_Name := "memos/m1" |} [Sample.r1; Sample.r2] eq_refl).
Defined.

Lemma UpsertMemoReaction_creator_is_requester_witness :
  exists message,
    snd (UpsertMemoReaction (Sample.world []) (Some 3) (Sample.react "memos/m1" "party"))
    = Return message
    /\ v1pb.Name message = "memos/m1/reactions/3"
    /\ v1pb.Creator message = "users/3".
Proof.
  destruct (UpsertMemoReaction_creator_is_requester memService (Sample.world []) (Some 3)
              (Sample.react "memos/m1" "party") Sample.carol _ eq_refl eq_refl)
    as [_ [_ Hmsg]].
  exact (Hmsg _ eq_refl eq_refl).
Defined.

(** The owner of the memo is not thereby the owner of a reaction on it: Bob
    wrote [memos/m1], Carol reacted, and Bob may not delete her reaction,
    while the host Alice may. *)
Example memo_owner_cannot_delete_reaction :
  DeleteMemoReaction (Sample.world []) (Some 2) (Sample.unreact "memos/m1/reactions/2")
  = (Sample.world [], Error permissionDenied)
  /\ snd (DeleteMemoReaction (Sample.world []) (Some 1)
            (Sample.unreact "memos/m1/reactions/2")) = Return v1pb.mkEmpty
  /\ Mem.reactions (db (fst (DeleteMemoReaction (Sample.world []) (Some 1)
                               (Sample.unreact "memos/m1/reactions/2"))))
     = [Sample.r1].
Proof. repeat split. Qed.

(** A failing store is reported as Internal, also to the creator. *)
Example store_failure_is_internal :
  snd (DeleteMemoReaction (Sample.world [Mem.OpDeleteReaction]) (Some 3)
         (Sample.unreact "memos/m1/reactions/2"))
  = Error (status.Errorf codes.Internal "failed to delete reaction")
  /\ snd (DeleteMemoReaction (Sample.world [Mem.OpGetReaction]) (Some 3)
            (Sample.unreact "memos/m1/reactions/2"))
     = Error (status.Errorf codes.Internal "failed to get reaction").
Proof. split; reflexivity. Qed.

(** * Properties of the tag aggregation *)

Module StringFacts.
Import utf8.

(** A rune of a string that is not empty is one to four bytes wide. *)
Lemma DecodeRuneInString_size (s : list Z) :
  s <> [] -> 1 <= snd (DecodeRuneInString s) <= 4.
Proof.
  intros Hs. destruct s as [|s0 t]; [congruence|].
  unfold DecodeRuneInString.
  destruct (s0 <? RuneSelf); [cbn; lia|].
  destruct (first s0) as [[[sz lo] hi]|]; [|cbn; lia].
  repeat match goal with
         | |- context [if ?c then _ else _] => destruct c
         end; cbn; lia.
Qed.

Lemma backToRuneStart_le (fuel : nat) (s : list Z) (start lim : Z) :
  backToRuneStart fuel s start lim <= start.
Proof.
  revert start. induction fuel as [|fuel IH]; intros start; cbn [backToRuneStart].
  - lia.
  - destruct (start <? lim); [lia|].
    destruct (RuneStart (byteAt s start)); [lia|].
    specialize (IH (start - 1)). lia.
Qed.

Lemma len_nil (s : list Z) : len s = 0 -> s = [].
Proof. unfold len. destruct s; [reflexivity|cbn; lia]. Qed.

(** The last rune of a string that is not empty is at least one byte wide,
    and no wider than the string. *)
Lemma DecodeLastRuneInString_size (s : list Z) :
  s <> [] -> 1 <= snd (DecodeLastRuneInString s) <= len s.
Proof.
  intros Hs. unfold DecodeLastRuneInString.
  assert (Hlen : 1 <= len s).
  { unfold len. destruct s; [congruence|cbn [List.length]; lia]. }
  destruct (len s =? 0) eqn:E0; [apply Z.eqb_eq in E0; lia|].
  destruct (byteAt s (len s - 1) <? RuneSelf); [cbn; lia|].
  set (start := backToRuneStart 5 s (len s - 2) (Z.max (len s - UTFMax) 0)).
  assert (Hstart : start <= len s - 2) by apply backToRuneStart_le.
  set (start' := if start <? 0 then 0 else start).
  assert (Hstart' : 0 <= start' /\ (start' <= len s - 2 \/ start' = 0)).
  { unfold start'. destruct (start <? 0) eqn:E; [lia|]. apply Z.ltb_ge in E. lia. }
  destruct (DecodeRuneInString (slice s start' (len s))) as [r size] eqn:Ed.
  destruct (negb (start' + size =? len s)) eqn:En; [cbn; lia|].
  apply negb_false_iff, Z.eqb_eq in En. cbn [snd].
  assert (Hne : slice s start' (len s) <> []).
  { unfold slice. intros Hnil. apply (f_equal (@List.length Z)) in Hnil.
    rewrite length_firstn, length_skipn in Hnil. unfold len in *. cbn in Hnil. lia. }
  pose proof (DecodeRuneInString_size _ Hne) as Hsize. rewrite Ed in Hsize.
  cbn [snd] in Hsize. lia.
Qed.

(** The loops of [indexFunc] and [lastIndexFunc] end before their fuel does:
    any fuel from the length of the string on gives the same index. *)
Lemma indexFuncFrom_fuel (f : Z -> bool) (truth : bool) :
  forall (fuel fuel' : nat) (s : list Z) (i : Z),
    (List.length s <= fuel)%nat -> (List.length s <= fuel')%nat ->
    strings.indexFuncFrom fuel s i f truth = strings.indexFuncFrom fuel' s i f truth.
Proof.
  induction fuel as [|fuel IH]; intros fuel' s i H H'.
  - destruct s; [|cbn in H; lia]. destruct fuel'; reflexivity.
  - destruct s as [|b t]; [destruct fuel'; reflexivity|].
    destruct fuel' as [|fuel']; [cbn in H'; lia|].
    cbn [strings.indexFuncFrom].
    pose proof (DecodeRuneInString_size (b :: t)) as Hsize.
    destruct (DecodeRuneInString (b :: t)) as [r size].
    cbn [snd] in Hsize. specialize (Hsize ltac:(discriminate)).
    destruct (Bool.eqb (f r) truth); [reflexivity|].
    apply IH; rewrite length_skipn; cbn [List.length] in *; lia.
Qed.

Lemma lastIndexFuncFrom_fuel (f : Z -> bool) (truth : bool) (s : list Z) :
  forall (fuel fuel' : nat) (i : Z),
    0 <= i <= len s -> (Z.to_nat i <= fuel)%nat -> (Z.to_nat i <= fuel')%nat ->
    strings.lastIndexFuncFrom fuel s i f truth
    = strings.lastIndexFuncFrom fuel' s i f truth.
Proof.
  induction fuel as [|fuel IH]; intros fuel' i Hi H H'.
  - assert (i = 0) by lia. subst i. destruct fuel'; reflexivity.
  - destruct (0 <? i) eqn:Epos.
    + apply Z.ltb_lt in Epos. destruct fuel' as [|fuel']; [lia|].
      cbn [strings.lastIndexFuncFrom]. rewrite (proj2 (Z.ltb_lt 0 i) Epos).
      assert (Hne : slice s 0 i <> []).
      { unfold slice. intros Hnil. apply (f_equal (@List.length Z)) in Hnil.
        rewrite length_firstn, length_skipn in Hnil. unfold len in *. cbn in Hnil. lia. }
      assert (Hlen : len (slice s 0 i) = i).
      { unfold slice, len in *. rewrite length_firstn, length_skipn. cbn. lia. }
      pose proof (DecodeLastRuneInString_size _ Hne) as Hsize. rewrite Hlen in Hsize.
      destruct (DecodeLastRuneInString (slice s 0 i)) as [r size].
      cbn [snd] in Hsize.
      destruct (Bool.eqb (f r) truth); [reflexivity|].
      apply IH; lia.
    + cbn [strings.lastIndexFuncFrom]. rewrite Epos.
      destruct fuel'; cbn [strings.lastIndexFuncFrom]; [reflexivity|].
      now rewrite Epos.
Qed.
(** The white space of [unicode.IsSpace] is the listed code points. *)
Lemma IsSpace_spec (r : Z) :
  unicode.IsSpace r = true <-> In r unicode.White_Space.
Proof.
  split.
  - unfold unicode.IsSpace, unicode.MaxLatin1, unicode.White_Space.
    destruct ((0 <=? r) && (r <=? 255)); intros H;
      repeat (apply orb_true_iff in H; destruct H as [H|H]);
      repeat (apply andb_true_iff in H; destruct H as [H H']);
      repeat match goal with
             | E : (_ =? _) = true |- _ => apply Z.eqb_eq in E
             | E : (_ <=? _) = true |- _ => apply Z.leb_le in E
             end;
      cbn [In]; lia.
  - intros H. cbn [unicode.White_Space In] in H.
    repeat (destruct H as [<-|H]; [reflexivity|]). destruct H.
Qed.

(** A string that is one white-space rune, whatever its width in bytes,
    is trimmed to the empty string. *)
Lemma TrimSpace_white_space (r : Z) :
  unicode.IsSpace r = true -> strings.TrimSpace (ofBytes (EncodeRune r)) = "".
Proof.
  intros H. apply IsSpace_spec in H. cbn [unicode.White_Space In] in H.
  repeat (destruct H as [<-|H]; [vm_compute; reflexivity|]). destruct H.
Qed.

(** White space is removed at both ends, and only there; bytes that are no
    valid UTF-8 are no white space. *)
Example TrimSpace_samples :
  strings.TrimSpace "" = ""
  /\ strings.TrimSpace "   " = ""
  /\ strings.TrimSpace "  a b " = "a b"
  /\ strings.TrimSpace TagTests.noBreakSpace = ""
  /\ strings.TrimSpace TagTests.ideographicSpace = ""
  /\ bytes (strings.TrimSpace
              (ofBytes [32; 227; 128; 128; 97; 194; 160; 98; 226; 128; 168; 10]))
     = [97; 194; 160; 98]
  /\ bytes (strings.TrimSpace (ofBytes [97; 194; 160; 32; 226; 128; 168; 10])) = [97]
  /\ bytes (strings.TrimSpace (ofBytes [194; 32])) = [194]
  /\ bytes (strings.TrimSpace (ofBytes [226; 128; 194; 160])) = [226; 128]
  /\ bytes (strings.TrimSpace (ofBytes [194; 160; 160])) = [160].
Proof. vm_compute. repeat split. Qed.

Example parseInt32_samples :
  parseInt32 "2" = Some 2 /\ parseInt32 "+2" = Some 2 /\ parseInt32 "-2" = Some (-2)
  /\ parseInt32 "007" = Some 7
  /\ parseInt32 "2147483647" = Some 2147483647 /\ parseInt32 "2147483648" = None
  /\ parseInt32 "-2147483648" = Some (-2147483648)
  /\ parseInt32 "" = None /\ parseInt32 "+" = None /\ parseInt32 "-" = None
  /\ parseInt32 "+-2" = None /\ parseInt32 " 1" = None /\ parseInt32 "1x" = None.
Proof. vm_compute. repeat split. Qed.
End StringFacts.

Module TagFacts.
Import Tags.

(** ** Comparisons *)

#[export] Instance ascii_total : TotalCompare Ascii.compare.
Proof.
  split; unfold Ascii.compare.
  - intros x. apply N.compare_refl.
  - intros x y H. now apply Ascii.compare_eq_iff.
  - intros x y. apply N.compare_antisym.
  - intros x y z. rewrite !N.compare_lt_iff. apply N.lt_trans.
Qed.

Section Lex.
Context {A : Type} (cmp : A -> A -> comparison) `{!TotalCompare cmp}.

Lemma lex_refl (l : list A) : lexCompare cmp l l = Eq.
Proof. induction l as [|x l IH]; simpl; [|rewrite cmp_refl]; auto. Qed.

Lemma lex_eq (l1 l2 : list A) : lexCompare cmp l1 l2 = Eq -> l1 = l2.
Proof.
  revert l2; induction l1 as [|x l1 IH]; intros [|y l2]; simpl; try easy.
  destruct (cmp x y) eqn:E; try easy.
  intros H. apply cmp_eq in E. subst y. f_equal. now apply IH.
Qed.

Lemma lex_antisym (l1 l2 : list A) :
  lexCompare cmp l1 l2 = CompOpp (lexCompare cmp l2 l1).
Proof.
  revert l2; induction l1 as [|x l1 IH]; intros [|y l2]; simpl; try easy.
  rewrite (cmp_antisym x y). destruct (cmp y x); simpl; auto.
Qed.

Lemma lex_trans (l1 l2 l3 : list A) :
  lexCompare cmp l1 l2 = Lt -> lexCompare cmp l2 l3 = Lt -> lexCompare cmp l1 l3 = Lt.
Proof.
  revert l2 l3; induction l1 as [|x l1 IH]; intros [|y l2] [|z l3]; simpl; try easy.
  destruct (cmp x y) eqn:Exy; try easy; destruct (cmp y z) eqn:Eyz; try easy.
  - apply cmp_eq in Exy, Eyz. subst. rewrite cmp_refl. apply IH.
  - apply cmp_eq in Exy. subst. now rewrite Eyz.
  - apply cmp_eq in Eyz. subst. now rewrite Exy.
  - now rewrite (cmp_trans _ _ _ Exy Eyz).
Qed.

#[export] Instance lex_total : TotalCompare (lexCompare cmp).
Proof. split; [apply lex_refl | apply lex_eq | apply lex_antisym | apply lex_trans]. Qed.

(** A proper prefix comes first. *)
Lemma lex_prefix (l rest : list A) :
  rest <> [] -> lexCompare cmp l (l ++ rest) = Lt.
Proof.
  intros Hrest. induction l as [|x l IH]; simpl.
  - destruct rest; [contradiction | reflexivity].
  - now rewrite cmp_refl.
Qed.
End Lex.

Lemma string_compare_is_lex (s t : string) :
  String.compare s t
  = lexCompare Ascii.compare (list_ascii_of_string s) (list_ascii_of_string t).
Proof.
  revert t; induction s as [|c s IH]; intros [|d t]; simpl; try reflexivity.
  now rewrite IH.
Qed.

Lemma list_ascii_of_string_inj (s t : string) :
  list_ascii_of_string s = list_ascii_of_string t -> s = t.
Proof.
  intros H. rewrite <- (string_of_list_ascii_of_string s),
                    <- (string_of_list_ascii_of_string t).
  now rewrite H.
Qed.

#[export] Instance string_total : TotalCompare String.compare.
Proof.
  split; intros *; rewrite ?string_compare_is_lex.
  - apply cmp_refl.
  - intros H. apply cmp_eq in H. now apply list_ascii_of_string_inj.
  - apply cmp_antisym.
  - apply cmp_trans.
Qed.

Section Order.
Variable normalize : string -> string.

#[export] Instance tags_total : TotalCompare (compareTags normalize).
Proof.
  split; unfold compareTags.
  - intros x. now rewrite !cmp_refl.
  - intros x y. destruct (lexCompare _ _ _); try easy. apply cmp_eq.
  - intros x y. rewrite (cmp_antisym (segmentKeys normalize x) (segmentKeys normalize y)), (cmp_antisym x y).
    destruct (lexCompare _ (segmentKeys normalize y) (segmentKeys normalize x)); reflexivity.
  - intros x y z.
    destruct (lexCompare _ (segmentKeys normalize x) (segmentKeys normalize y)) eqn:Exy; try easy;
      destruct (lexCompare _ (segmentKeys normalize y) (segmentKeys normalize z)) eqn:Eyz; try easy.
    + apply cmp_eq in Exy, Eyz. rewrite Exy, Eyz, cmp_refl. apply cmp_trans.
    + apply cmp_eq in Exy. rewrite Exy, Eyz. auto.
    + apply cmp_eq in Eyz. rewrite <- Eyz, Exy. auto.
    + rewrite (cmp_trans _ _ _ Exy Eyz). auto.
Qed.

Lemma tagLe_trans (a b c : string) :
  tagLe normalize a b -> tagLe normalize b c -> tagLe normalize a c.
Proof.
  unfold tagLe. intros Hab Hbc Hac.
  rewrite cmp_antisym in Hac.
  destruct (compareTags normalize c a) eqn:Eca; try discriminate.
  destruct (compareTags normalize a b) eqn:Eab; try easy.
  - apply cmp_eq in Eab. subst b. rewrite cmp_antisym, Eca in Hbc. now apply Hbc.
  - pose proof (cmp_trans _ _ _ Eca Eab) as Ecb.
    rewrite cmp_antisym, Ecb in Hbc. now apply Hbc.
Qed.

Lemma tagLess_false_le (h t : string) :
  tagLess normalize h t = false -> tagLe normalize t h.
Proof.
  unfold tagLess, tagLe. rewrite (cmp_antisym t h).
  destruct (compareTags normalize h t); simpl; easy.
Qed.

Lemma tagLess_true_le (h t : string) :
  tagLess normalize h t = true -> tagLe normalize h t.
Proof. unfold tagLess, tagLe. destruct (compareTags normalize h t); easy. Qed.

(** An ancestor compares below each of its descendants. *)
Lemma ancestor_compares_first (p q : string) :
  ancestorOf p q -> compareTags normalize p q = Lt.
Proof.
  intros [rest [Hrest Hsplit]]. unfold compareTags, segmentKeys.
  rewrite Hsplit, map_app, lex_prefix; [reflexivity | exact _ |].
  destruct rest; [contradiction | discriminate].
Qed.
End Order.

(** ** Splitting *)

Lemma Split_nonempty (sep : ascii) (s : string) : strings.Split sep s <> [].
Proof.
  destruct s as [|c s]; simpl; [discriminate|].
  destruct (Ascii.eqb c sep); [discriminate|].
  destruct (strings.Split sep s); discriminate.
Qed.

Lemma Split_append (sep : ascii) (p c : string) :
  strings.Split sep (p ++ String sep c)
  = (strings.Split sep p ++ strings.Split sep c)%list.
Proof.
  induction p as [|a p IH]; simpl.
  - now rewrite Ascii.eqb_refl.
  - destruct (Ascii.eqb a sep); rewrite IH; [reflexivity|].
    pose proof (Split_nonempty sep p) as Hne.
    destruct (strings.Split sep p); [contradiction | reflexivity].
Qed.

Lemma child_is_descendant (p c : string) : ancestorOf p (p ++ "/" ++ c).
Proof.
  exists (strings.Split "/" c). split; [apply Split_nonempty|].
  apply (Split_append "/" p c).
Qed.

(** ** Positions in a list *)

Lemma sorted_precedes (R : string -> string -> Prop) (l : list string) (x y : string) :
  StronglySorted R l -> precedes x y l -> R x y.
Proof.
  intros Hs (l1 & l2 & l3 & ->).
  induction l1 as [|a l1 IH]; simpl in Hs; inversion Hs as [|? ? Hrest Hall]; subst.
  - rewrite Forall_forall in Hall. apply Hall, in_elt.
  - now apply IH.
Qed.

Lemma distinct_members_ordered (l : list string) (x y : string) :
  In x l -> In y l -> x <> y -> precedes x y l \/ precedes y x l.
Proof.
  intros Hx Hy Hxy.
  destruct (in_split _ _ Hx) as (l1 & l2 & ->).
  apply in_app_or in Hy. destruct Hy as [Hy | [Hy | Hy]].
  - destruct (in_split _ _ Hy) as (a & b & ->). right.
    exists a, b, l2. now rewrite <- app_assoc.
  - contradiction.
  - destruct (in_split _ _ Hy) as (a & b & ->). left.
    now exists l1, a, b.
Qed.

(** ** Sorting and aggregation *)

Section Aggregate.
Variable normalize : string -> string.

Lemma insertTag_perm (t : string) (l : list string) :
  Permutation (insertTag normalize t l) (t :: l).
Proof.
  induction l as [|h l IH]; simpl; [reflexivity|].
  destruct (tagLess normalize h t); [|reflexivity].
  rewrite IH. apply perm_swap.
Qed.

Lemma sort_perm (l : list string) : Permutation (sortTagsByHierarchy normalize l) l.
Proof.
  induction l as [|t l IH]; simpl; [reflexivity|].
  now rewrite insertTag_perm, IH.
Qed.

Lemma insertTag_sorted (t : string) (l : list string) :
  StronglySorted (tagLe normalize) l ->
  StronglySorted (tagLe normalize) (insertTag normalize t l).
Proof.
  induction l as [|h l IH]; simpl; intros Hs.
  - repeat constructor.
  - inversion Hs as [|? ? Hrest Hall]; subst.
    destruct (tagLess normalize h t) eqn:E.
    + constructor; [now apply IH|].
      apply (Permutation_Forall (Permutation_sym (insertTag_perm t l))).
      constructor; [now apply tagLess_true_le | assumption].
    + apply tagLess_false_le in E.
      constructor; [assumption|]. constructor; [assumption|].
      eapply Forall_impl; [|exact Hall].
      intros x Hx. now apply (tagLe_trans normalize t h x).
Qed.

Lemma sort_sorted (l : list string) :
  StronglySorted (tagLe normalize) (sortTagsByHierarchy normalize l).
Proof.
  induction l as [|t l IH]; simpl; [constructor | now apply insertTag_sorted].
Qed.

Lemma nonBlank_spec (t : string) :
  nonBlank t = true <-> strings.TrimSpace t <> "".
Proof.
  unfold nonBlank. rewrite negb_true_iff. apply String.eqb_neq.
Qed.

Lemma aggregate_perm (tags : list string) :
  Permutation (aggregate normalize tags) (nodup string_dec (filter nonBlank tags)).
Proof. apply sort_perm. Qed.

Lemma In_aggregate (tags : list string) (t : string) :
  In t (aggregate normalize tags) <-> In t tags /\ strings.TrimSpace t <> "".
Proof.
  rewrite <- nonBlank_spec, <- filter_In,
    <- (nodup_In string_dec (filter nonBlank tags)).
  split; apply Permutation_in;
    [apply aggregate_perm | apply Permutation_sym, aggregate_perm].
Qed.

Lemma NoDup_aggregate (tags : list string) : NoDup (aggregate normalize tags).
Proof.
  apply (Permutation_NoDup (Permutation_sym (aggregate_perm tags))).
  apply NoDup_nodup.
Qed.

Lemma aggregate_sorted (tags : list string) :
  StronglySorted (tagLe normalize) (aggregate normalize tags).
Proof. apply sort_sorted. Qed.

(** Among the aggregated tags an ancestor stands before its descendant. *)
Lemma ancestor_precedes (tags : list string) (p q : string) :
  In p (aggregate normalize tags) -> In q (aggregate normalize tags) ->
  ancestorOf p q ->
  precedes p q (aggregate normalize tags)
  /\ ~ precedes q p (aggregate normalize tags).
Proof.
  intros Hp Hq Hanc.
  pose proof (ancestor_compares_first normalize p q Hanc) as Hlt.
  assert (Hback : ~ precedes q p (aggregate normalize tags)).
  { intros Hqp. apply (sorted_precedes _ _ _ _ (aggregate_sorted tags)) in Hqp.
    apply Hqp. now rewrite cmp_antisym, Hlt. }
  split; [|exact Hback].
  destruct (distinct_members_ordered _ p q Hp Hq) as [H|H]; [|exact H|contradiction].
  intros ->. now rewrite cmp_refl in Hlt.
Qed.

(** A requester who sees at least the items another sees gets at least
    the other's tags. *)
Lemma aggregateTags_monotone (items : list store.Memo) (r1 r2 : Requester) :
  (forall m, In m items -> visibleTo r1 m = true -> visibleTo r2 m = true) ->
  incl (aggregateTags normalize items r1) (aggregateTags normalize items r2).
Proof.
  intros Hmono t. unfold aggregateTags. rewrite !In_aggregate.
  intros [Hin Hne]. split; [|exact Hne].
  unfold visibleTags in *. rewrite in_flat_map in *.
  destruct Hin as (m & Hm & Ht). exists m. split; [|exact Ht].
  rewrite filter_In in *. destruct Hm as [Hm Hvis]. auto.
Qed.
End Aggregate.
End TagFacts.

Import Tags TagFacts.

(** C5.  In the aggregated output, a tag [p] stands before every tag present
    whose segment sequence strictly extends that of [p], and never after
    it; in particular [p] stands before [p/c] whenever both are present. *)
Theorem aggregateTags_hierarchy_ordering :
  forall (normalize : string -> string) (contentItems : list store.Memo)
         (requester : Requester) (p : string),
    In p (aggregateTags normalize contentItems requester) ->
    (forall q,
        In q (aggregateTags normalize contentItems requester) ->
        ancestorOf p q ->
        precedes p q (aggregateTags normalize contentItems requester)
        /\ ~ precedes q p (aggregateTags normalize contentItems requester))
    /\ (forall c,
           In (p ++ "/" ++ c) (aggregateTags normalize contentItems requester) ->
           precedes p (p ++ "/" ++ c) (aggregateTags normalize contentItems requester)).
Proof.
  intros normalize contentItems requester p Hp. split.
  - intros q Hq Hanc. now apply ancestor_precedes.
  - intros c Hc. apply ancestor_precedes; auto using child_is_descendant.
Qed.

(** C6.  For one content set, all of whose items belong to [owner]: the tags
    an anonymous requester gets are among those an authenticated requester
    without privilege gets (non-owner included), which are among those the
    owner gets and among those any privileged requester gets. *)
Theorem aggregateTags_visibility_monotone :
  forall (normalize : string -> string) (contentItems : list store.Memo)
         (owner visitor admin : Z) (ownerPrivileged : bool),
    (forall item, In item contentItems -> store.Memo_CreatorID item = owner) ->
    incl (aggregateTags normalize contentItems Anonymous)
         (aggregateTags normalize contentItems (Authenticated visitor false))
    /\ incl (aggregateTags normalize contentItems (Authenticated visitor false))
            (aggregateTags normalize contentItems (Authenticated owner ownerPrivileged))
    /\ incl (aggregateTags normalize contentItems (Authenticated visitor false))
            (aggregateTags normalize contentItems (Authenticated admin true)).
Proof.
  intros normalize contentItems owner visitor admin ownerPrivileged Howned.
  repeat split; apply aggregateTags_monotone; intros m Hm; unfold visibleTo, canView.
  - destruct (visitor =? _); [reflexivity|].
    destruct (store.Memo_Visibility m); auto.
  - intros _. now rewrite (Howned m Hm), Z.eqb_refl.
  - intros _. destruct (admin =? _); reflexivity.
Qed.

(** C7.  For every list of input tags (repeats, empty and all-blank strings
    included), every input tag that is not empty after trimming occurs
    exactly once in the aggregated output, the output has no repeats and
    holds input tags only, and a tag that is empty after trimming never
    occurs in it.  Trimming is [strings.TrimSpace]: a tag is empty after it
    when it holds nothing but white space, that of Unicode included. *)
Theorem aggregate_dedup_nonblank :
  forall (normalize : string -> string) (tags : list string) (t : string),
    (In t tags -> strings.TrimSpace t <> "" ->
     count_occ string_dec (aggregate normalize tags) t = 1%nat)
    /\ (In t (aggregate normalize tags) -> In t tags /\ strings.TrimSpace t <> "")
    /\ (strings.TrimSpace t = "" -> ~ In t (aggregate normalize tags))
    /\ NoDup (aggregate normalize tags).
Proof.
  intros normalize tags t. split; [|split; [|split]].
  - intros Hin Hne. apply NoDup_count_occ'; [apply NoDup_aggregate|].
    now apply In_aggregate.
  - intros Hin. now apply In_aggregate in Hin.
  - intros Hblank Hin. apply In_aggregate in Hin. now destruct Hin.
  - apply NoDup_aggregate.
Qed.

(** ** The tag tests *)

Lemma aggregateTags_hierarchy_ordering_witness :
  precedes "archive" "archive/2024"
           (aggregateTags removeEmojis TagTests.hierarchical TagTests.owner)
  /\ precedes "archive" "archive/2024/q1"
              (aggregateTags removeEmojis TagTests.hierarchical TagTests.owner).
Proof.
  assert (Hp : In "archive"
                  (aggregateTags removeEmojis TagTests.hierarchical TagTests.owner))
    by (vm_compute; tauto).
  destruct (aggregateTags_hierarchy_ordering removeEmojis TagTests.hierarchical
              TagTests.owner "archive" Hp) as [Hdesc Hchild].
  split.
  - apply (Hchild "2024"). vm_compute. tauto.
  - apply (Hchild "2024/q1"). vm_compute. tauto.
Defined.

Lemma aggregateTags_visibility_monotone_witness :
  incl (aggregateTags removeEmojis TagTests.tiers Anonymous)
       (aggregateTags removeEmojis TagTests.tiers (Authenticated 2 false))
  /\ incl (aggregateTags removeEmojis TagTests.tiers (Authenticated 2 false))
          (aggregateTags removeEmojis TagTests.tiers (Authenticated 1 true)).
Proof.
  assert (Howned : forall item, In item TagTests.tiers -> store.Memo_CreatorID item = 1).
  { intros item Hin. simpl in Hin.
    destruct Hin as [<-|[<-|[<-|[]]]]; reflexivity. }
  destruct (aggregateTags_visibility_monotone removeEmojis TagTests.tiers 1 2 1 true
              Howned) as [Hanon [Howner _]].
  split; assumption.
Defined.

Lemma aggregate_dedup_nonblank_witness :
  count_occ string_dec
    (aggregate removeEmojis TagTests.blankAndRepeated) "valid-tag" = 1%nat
  /\ ~ In "" (aggregate removeEmojis TagTests.blankAndRepeated)
  /\ ~ In "  " (aggregate removeEmojis TagTests.blankAndRepeated)
  /\ ~ In TagTests.noBreakSpace (aggregate removeEmojis TagTests.blankAndRepeated)
  /\ ~ In TagTests.ideographicSpace
          (aggregate removeEmojis TagTests.blankAndRepeated).
Proof.
  split; [|split; [|split; [|split]]].
  - apply (aggregate_dedup_nonblank removeEmojis TagTests.blankAndRepeated
             "valid-tag").
    + simpl. tauto.
    + vm_compute. discriminate.
  - apply (aggregate_dedup_nonblank removeEmojis TagTests.blankAndRepeated "").
    reflexivity.
  - apply (aggregate_dedup_nonblank removeEmojis TagTests.blankAndRepeated "  ").
    reflexivity.
  - apply (aggregate_dedup_nonblank removeEmojis TagTests.blankAndRepeated
             TagTests.noBreakSpace).
    reflexivity.
  - apply (aggregate_dedup_nonblank removeEmojis TagTests.blankAndRepeated
             TagTests.ideographicSpace).
    reflexivity.
Defined.

(** Tags of white space only are dropped, also where the white space is not
    ASCII. *)
Example aggregate_drops_unicode_blank :
  aggregate removeEmojis TagTests.blankAndRepeated = ["valid-tag"].
Proof. vm_compute. reflexivity. Qed.

(** The expectations of the test file hold in the model. *)

Example test_BasicFunctionality :
  TagTests.listUserTags TagTests.basic TagTests.owner
  = ["archive"; "family"; "personal"; "project1"; "project2"; "work"; "work/subproject"].
Proof. vm_compute. reflexivity. Qed.

Example test_HierarchicalSorting :
  TagTests.listUserTags TagTests.hierarchical TagTests.owner
  = ["archive"; "archive/2024"; "archive/2024/q1"; "personal"; "personal/family";
     "work"; "work/project1"; "work/project2/task1"].
Proof. vm_compute. reflexivity. Qed.

Example test_VisibilityPermissions :
  TagTests.listUserTags TagTests.tiers TagTests.owner
  = ["private-tag"; "protected-tag"; "public-tag"]
  /\ TagTests.listUserTags TagTests.tiers TagTests.visitor
     = ["protected-tag"; "public-tag"]
  /\ TagTests.listUserTags TagTests.tiers Anonymous = ["public-tag"].
Proof. vm_compute. repeat split. Qed.

Example test_EmptyTags :
  TagTests.listUserTags TagTests.withEmpty TagTests.owner = ["valid-tag"].
Proof. vm_compute. reflexivity. Qed.

Example test_SortTagsByHierarchy :
  TagTests.listUserTags
    (TagTests.oneEach ["work/project2"; "work"; "personal/family"; "personal";
                       "work/project1"]) TagTests.owner
  = ["personal"; "personal/family"; "work"; "work/project1"; "work/project2"]
  /\ TagTests.listUserTags (TagTests.oneEach ["a/b/c"; "a"; "b"; "a/b"]) TagTests.owner
     = ["a"; "a/b"; "a/b/c"; "b"]
  /\ TagTests.listUserTags (TagTests.oneEach ["zebra"; "apple"; "banana"]) TagTests.owner
     = ["apple"; "banana"; "zebra"]
  /\ TagTests.listUserTags
       (TagTests.oneEach ["a/b/c/d/e"; "a/b"; "a/b/c"; "a"; "a/b/c/d"]) TagTests.owner
     = ["a"; "a/b"; "a/b/c"; "a/b/c/d"; "a/b/c/d/e"]
  /\ TagTests.listUserTags (TagTests.oneEach []) TagTests.owner = []
  /\ TagTests.listUserTags
       (TagTests.oneEach ["🎪Resource/🏛️Culture"; "🎪Resource"; "work";
                          "📚Resource/Books"]) TagTests.owner
     = ["🎪Resource"; "📚Resource/Books"; "🎪Resource/🏛️Culture"; "work"].
Proof. vm_compute. repeat split. Qed.

(** ** The in-memory store *)

(** The in-memory store keeps the creator it is handed, and holds the
    returned record afterwards. *)
Lemma Mem_UpsertReaction_keeps_creator (d d' : Mem.DB) (ctx : Mem.Ctx)
    (r stored : store.Reaction) :
  Mem.UpsertReaction d ctx r = (d', inl stored) ->
  store.CreatorID stored = store.CreatorID r
  /\ store.ContentID stored = store.ContentID r
  /\ store.ReactionType stored = store.ReactionType r
  /\ In stored (Mem.reactions d').
Proof.
  unfold Mem.UpsertReaction. destruct (Mem.fails d Mem.OpUpsertReaction); [discriminate|].
  intros [= <- <-]. cbn. repeat split. apply in_or_app. right. now left.
Qed.

(** The delete decision does not look at the memos: replacing the memo table
    (and with it every memo's creator) changes no outcome. *)
Lemma DeleteMemoReaction_ignores_memos (d : Mem.DB) (memos' : list store.Memo)
    lg ob (ctx : Mem.Ctx) (request : v1pb.DeleteMemoReactionRequest) :
  snd (DeleteMemoReaction
         {| db := {| Mem.users := Mem.users d; Mem.memos := memos';
                     Mem.reactions := Mem.reactions d;
                     Mem.attachments := Mem.attachments d;
                     Mem.nextReactionID := Mem.nextReactionID d;
                     Mem.now := Mem.now d; Mem.failing := Mem.failing d |};
            logs := lg; outbox := ob |} ctx request)
  = snd (DeleteMemoReaction {| db := d; logs := lg; outbox := ob |} ctx request).
Proof.
  unfold DeleteMemoReaction. cbn [db fetchCurrentUser memService].
  unfold Mem.fetchCurrentUser, Mem.fails. cbn [Mem.failing Mem.users].
  destruct ctx as [uid|]; [|reflexivity].
  destruct (existsb _ _); [reflexivity|].
  destruct (find _ (Mem.users d)) as [user|]; [|reflexivity].
  destruct (ExtractMemoReactionIDFromName _) as [[muid rid]|e]; [|reflexivity].
  cbn [Store_GetReaction Store_DeleteReaction memService].
  unfold Mem.GetReaction, Mem.DeleteReaction, Mem.fails. cbn [Mem.failing Mem.reactions].
  destruct (existsb _ _); [reflexivity|].
  destruct (find _ (Mem.reactions d)) as [reaction|]; [|reflexivity].
  destruct (negb _ && negb _); [reflexivity|].
  destruct (existsb _ _); reflexivity.
Qed.

(** * Further properties of the reaction handlers *)

Lemma append_cancel_l (p a b : string) : p ++ a = p ++ b -> a = b.
Proof.
  induction p as [|c p IH]; simpl; [auto|]. intros [= H]. auto.
Qed.

Lemma formatInt_inj (a b : Z) : formatInt a = formatInt b -> a = b.
Proof.
  unfold formatInt. intros H.
  apply DecimalZ.to_int_inj.
  assert (Hnil : forall z, Z.to_int z <> Decimal.Pos Decimal.Nil
                           /\ Z.to_int z <> Decimal.Neg Decimal.Nil).
  { intros [|p|p]; simpl; split; try discriminate;
      intros [= Hp]; now apply (DecimalPos.Unsigned.to_uint_nonnil p). }
  destruct (Hnil a) as [Ha1 Ha2], (Hnil b) as [Hb1 Hb2].
  pose proof (NilZero.isi _ Ha1 Ha2) as Ia. pose proof (NilZero.isi _ Hb1 Hb2) as Ib.
  rewrite H in Ia. rewrite Ia in Ib. now injection Ib.
Qed.

Section HandlerEffects.
Context {svc : Service}.

(** What the webhook attempt adds to the world: at most three warnings and
    at most one dispatcher call, which carries the given reaction message. *)
Lemma notifyMemoReacted_effects (w : World) ctx cid msg :
  exists newlogs newcalls,
    logs (notifyMemoReacted w ctx cid msg) = (logs w ++ newlogs)%list
    /\ outbox (notifyMemoReacted w ctx cid msg) = (outbox w ++ newcalls)%list
    /\ (List.length newlogs <= 3)%nat
    /\ (List.length newcalls <= 1)%nat
    /\ (forall m r, In (m, r) newcalls -> r = msg).
Proof.
  unfold notifyMemoReacted.
  destruct (ExtractMemoUIDFromName cid) as [uid|e0];
    [destruct (Store_GetMemo _ _ _) as [[memo|]|e0']|];
    try (exists [], []; cbn; rewrite !app_nil_r; repeat split; auto; easy).
  destruct (Store_ListReactions _ _ _) as [rs|e1];
    destruct (Store_ListAttachments _ _ _) as [ats|e2];
    destruct (convertMemoFromStore _ _ _ _ _) as [mm|e3];
    try destruct (DispatchMemoReactedWebhook _ _ mm _) as [e4|];
    cbn [logs outbox slog_Warn record_dispatch];
    rewrite <- ?app_assoc;
    match goal with
    | |- context [(outbox w ++ [?c])%list] =>
        match goal with
        | |- context [(logs w ++ ?l)%list] => exists l, [c]
        | _ => exists [], [c]
        end
    | |- context [(logs w ++ ?l)%list] => exists l, []
    end;
    rewrite ?app_nil_r; cbn; repeat split; auto; try lia;
    intros m r [[= _ <-]|[]]; reflexivity.
Qed.
End HandlerEffects.

(** X1.  The delete handler never writes a log record and never calls the
    webhook dispatcher, and it changes the store in one way only: by the
    store's delete call for the id parsed from the request, made for an
    authenticated requester who created the reaction found under that id or
    is a super user. *)
Theorem DeleteMemoReaction_only_authorized_mutation :
  forall (svc : Service) (w : World) (ctx : Context)
         (request : v1pb.DeleteMemoReactionRequest),
    logs (fst (DeleteMemoReaction w ctx request)) = logs w
    /\ outbox (fst (DeleteMemoReaction w ctx request)) = outbox w
    /\ (fst (DeleteMemoReaction w ctx request) = w
        \/ exists user uid reactionID reaction,
            fetchCurrentUser (db w) ctx = inl (Some user)
            /\ ExtractMemoReactionIDFromName (v1pb.DeleteReq_Name request)
               = inl (uid, reactionID)
            /\ Store_GetReaction (db w) ctx (findByID reactionID) = inl (Some reaction)
            /\ (store.CreatorID reaction = store.User_ID user
                \/ isSuperUser user = true)
            /\ fst (DeleteMemoReaction w ctx request)
               = set_db w (fst (Store_DeleteReaction (db w) ctx
                                  {| store.Delete_ID := reactionID |}))).
Proof.
  intros svc w ctx request. unfold DeleteMemoReaction.
  destruct (fetchCurrentUser (db w) ctx) as [[user|]|e0] eqn:Huser;
    try (repeat split; now left).
  destruct (ExtractMemoReactionIDFromName _) as [[uid rid]|e1] eqn:Hname;
    try (repeat split; now left).
  destruct (Store_GetReaction _ _ _) as [[reaction|]|e2] eqn:Hget;
    try (repeat split; now left).
  destruct (negb _ && negb _) eqn:Hdenied; [repeat split; now left|].
  assert (Hauth : store.CreatorID reaction = store.User_ID user
                  \/ isSuperUser user = true).
  { apply andb_false_iff in Hdenied. rewrite !negb_false_iff in Hdenied.
    destruct Hdenied as [Hown|Hsuper]; [left; now apply Z.eqb_eq | now right]. }
  destruct (Store_DeleteReaction _ _ _) as [db1 [e3|]] eqn:Hdel; cbn [fst];
    (repeat split; try reflexivity; right; exists user, uid, rid, reaction;
     rewrite Hdel; repeat split; first [assumption | reflexivity]).
Qed.

(** X2.  The statuses the handlers can end in.  The list handler never
    changes the world, never panics and fails with Internal only; the upsert
    handler fails with Internal or Unauthenticated only; the delete handler
    never panics and fails with Internal, Unauthenticated, InvalidArgument or
    PermissionDenied only. *)
Theorem handler_status_codes :
  forall (svc : Service) (w : World) (ctx : Context),
    (forall request,
        fst (ListMemoReactions w ctx request) = w
        /\ snd (ListMemoReactions w ctx request) <> Panic
        /\ forall s, snd (ListMemoReactions w ctx request) = Error s ->
                     status.Code s = codes.Internal)
    /\ (forall request s,
           snd (UpsertMemoReaction w ctx request) = Error s ->
           status.Code s = codes.Internal \/ status.Code s = codes.Unauthenticated)
    /\ (forall request,
           snd (DeleteMemoReaction w ctx request) <> Panic
           /\ forall s, snd (DeleteMemoReaction w ctx request) = Error s ->
                        In (status.Code s)
                           [codes.Internal; codes.Unauthenticated;
                            codes.InvalidArgument; codes.PermissionDenied]).
Proof.
  intros svc w ctx. split; [|split]; intros request.
  - unfold ListMemoReactions.
    destruct (Store_ListReactions _ _ _); cbn [fst snd]; repeat split;
      try discriminate; intros s [= <-]; reflexivity.
  - intros s. unfold UpsertMemoReaction.
    destruct (fetchCurrentUser _ _) as [[user|]|e0]; cbn [snd];
      try (intros [= <-]; cbn; auto).
    destruct (v1pb.UpsertReq_Reaction request); cbn [snd]; [|discriminate].
    destruct (Store_UpsertReaction _ _ _) as [db1 [reaction|e1]]; cbn [snd];
      [discriminate|]. intros [= <-]; cbn; auto.
  - unfold DeleteMemoReaction.
    destruct (fetchCurrentUser _ _) as [[user|]|e0]; cbn [snd];
      try (split; [discriminate | intros s [= <-]; cbn; tauto]).
    destruct (ExtractMemoReactionIDFromName _) as [[uid rid]|e1]; cbn [snd];
      try (split; [discriminate | intros s [= <-]; cbn; tauto]).
    destruct (Store_GetReaction _ _ _) as [[reaction|]|e2]; cbn [snd];
      try (split; [discriminate | intros s [= <-]; cbn; tauto]).
    destruct (negb _ && negb _); cbn [snd];
      try (split; [discriminate | intros s [= <-]; cbn; tauto]).
    destruct (Store_DeleteReaction _ _ _) as [db1 [e3|]]; cbn [snd];
      split; try discriminate; intros s [= <-]; cbn; tauto.
Qed.

(** X3.  The upsert handler panics exactly when the requester is
    authenticated and the request carries no reaction message (the nil
    message is dereferenced while the store record is built); the world is
    then untouched: the store has not been called. *)
Theorem UpsertMemoReaction_panics_on_nil_reaction :
  forall (svc : Service) (w : World) (ctx : Context)
         (request : v1pb.UpsertMemoReactionRequest),
    (snd (UpsertMemoReaction w ctx request) = Panic
     <-> (exists user, fetchCurrentUser (db w) ctx = inl (Some user))
         /\ v1pb.UpsertReq_Reaction request = None)
    /\ (snd (UpsertMemoReaction w ctx request) = Panic ->
        fst (UpsertMemoReaction w ctx request) = w).
Proof.
  intros svc w ctx request. unfold UpsertMemoReaction.
  destruct (fetchCurrentUser (db w) ctx) as [[user|]|e0]; cbn [fst snd];
    try (split; [split; [discriminate | intros [[u [= ]] _]] | discriminate]).
  destruct (v1pb.UpsertReq_Reaction request) as [rr|]; cbn [fst snd].
  - destruct (Store_UpsertReaction _ _ _) as [db1 [reaction|e1]]; cbn [fst snd];
      (split; [split; [discriminate | intros [_ [= ]]] | discriminate]).
  - split; [split; auto; intros _; split; eauto | reflexivity].
Qed.

(** X4.  When the memo of a stored reaction cannot be resolved (its name
    does not parse, the store fails to fetch it, or there is no such memo),
    the upsert handler returns the reaction and does nothing else: nothing is
    logged and nothing is dispatched. *)
Theorem UpsertMemoReaction_unresolved_memo_is_silent :
  forall (svc : Service) (w : World) (ctx : Context)
         (request : v1pb.UpsertMemoReactionRequest)
         (user : store.User) (reqReaction : v1pb.Reaction)
         (db1 : StoreState) (reaction : store.Reaction),
    fetchCurrentUser (db w) ctx = inl (Some user) ->
    v1pb.UpsertReq_Reaction request = Some reqReaction ->
    Store_UpsertReaction (db w) ctx (newStoreReaction user reqReaction)
      = (db1, inl reaction) ->
    match ExtractMemoUIDFromName (v1pb.ContentId reqReaction) with
    | inl memoUID =>
        match Store_GetMemo db1 ctx
                {| store.FindMemo_ID := None; store.FindMemo_UID := Some memoUID |} with
        | inl (Some _) => False
        | _ => True
        end
    | inr _ => True
    end ->
    UpsertMemoReaction w ctx request
    = (set_db w db1, Return (convertReactionFromStore reaction)).
Proof.
  intros svc w ctx request user reqReaction db1 reaction Huser Hreq Hupsert Hmemo.
  unfold UpsertMemoReaction. step_handler. f_equal.
  unfold notifyMemoReacted. cbn [db set_db].
  destruct (ExtractMemoUIDFromName _) as [uid|e0]; [|reflexivity].
  destruct (Store_GetMemo db1 ctx _) as [[memo|]|e1]; [contradiction| |]; reflexivity.
Qed.

(** X5.  One call of the upsert handler only appends to the log and to the
    dispatcher calls: at most three warnings and at most one dispatch, and a
    dispatch carries the very reaction message that is returned.  Unless a
    reaction is returned, nothing is logged or dispatched at all. *)
Theorem UpsertMemoReaction_bounded_effects :
  forall (svc : Service) (w : World) (ctx : Context)
         (request : v1pb.UpsertMemoReactionRequest),
  exists newlogs newcalls,
    logs (fst (UpsertMemoReaction w ctx request)) = (logs w ++ newlogs)%list
    /\ outbox (fst (UpsertMemoReaction w ctx request)) = (outbox w ++ newcalls)%list
    /\ (List.length newlogs <= 3)%nat
    /\ (List.length newcalls <= 1)%nat
    /\ (forall m r, In (m, r) newcalls ->
                    snd (UpsertMemoReaction w ctx request) = Return r)
    /\ ((forall r, snd (UpsertMemoReaction w ctx request) <> Return r) ->
        newlogs = [] /\ newcalls = []).
Proof.
  intros svc w ctx request. unfold UpsertMemoReaction.
  destruct (fetchCurrentUser (db w) ctx) as [[user|]|e0];
    try (exists [], []; cbn; rewrite !app_nil_r; repeat split; auto; easy).
  destruct (v1pb.UpsertReq_Reaction request) as [rr|];
    try (exists [], []; cbn; rewrite !app_nil_r; repeat split; auto; easy).
  destruct (Store_UpsertReaction _ _ _) as [db1 [reaction|e1]];
    try (exists [], []; cbn; rewrite !app_nil_r; repeat split; auto; easy).
  destruct (notifyMemoReacted_effects (set_db w db1) ctx (v1pb.ContentId rr)
              (convertReactionFromStore reaction))
    as (newlogs & newcalls & Hlogs & Hcalls & Hn & Hc & Hmsg).
  exists newlogs, newcalls. cbn [fst snd].
  split; [exact Hlogs|]. split; [exact Hcalls|]. split; [exact Hn|].
  split; [exact Hc|]. split.
  - intros m r Hin. now rewrite (Hmsg m r Hin).
  - intros Hnone. now destruct (Hnone (convertReactionFromStore reaction)).
Qed.

(** X6.  The conversion of a store reaction to its API message loses
    nothing: two store reactions with the same message are the same record,
    whatever the two name prefixes are. *)
Theorem convertReactionFromStore_injective :
  forall (svc : Service) (r1 r2 : store.Reaction),
    convertReactionFromStore r1 = convertReactionFromStore r2 -> r1 = r2.
Proof.
  intros svc [id1 ts1 cr1 cid1 ty1] [id2 ts2 cr2 cid2 ty2].
  unfold convertReactionFromStore, timestamppb_New_Unix. cbn.
  intros [= Hname Hcreator -> -> ->].
  apply append_cancel_l in Hcreator. apply formatInt_inj in Hcreator.
  apply append_cancel_l in Hname. injection Hname as Hname.
  apply append_cancel_l in Hname. apply formatInt_inj in Hname.
  now subst.
Qed.

(** * Properties of the attachment helpers *)

Module RegexFacts.
Import regexp.

Lemma append_empty (s1 s2 : string) : s1 ++ s2 = "" -> s1 = "" /\ s2 = "".
Proof. destruct s1; simpl; [auto | discriminate]. Qed.

Lemma append_assoc (a b c : string) : (a ++ b) ++ c = a ++ b ++ c.
Proof. induction a as [|x a IH]; simpl; [reflexivity | now rewrite IH]. Qed.

Lemma append_nil_r (s : string) : s ++ "" = s.
Proof. induction s as [|x s IH]; simpl; [reflexivity | now rewrite IH]. Qed.

Lemma length_append (a b : string) :
  String.length (a ++ b) = (String.length a + String.length b)%nat.
Proof. induction a as [|x a IH]; simpl; [reflexivity | now rewrite IH]. Qed.

Lemma allChars_append (p : ascii -> bool) (a b : string) :
  allChars p (a ++ b) = allChars p a && allChars p b.
Proof.
  induction a as [|x a IH]; simpl; [reflexivity|]. now rewrite IH, andb_assoc.
Qed.

Lemma accepts_nullable (r : regex) : nullable r = true <-> accepts r "".
Proof.
  split.
  - induction r; simpl; intros H; try discriminate.
    + constructor.
    + apply andb_true_iff in H as [H1 H2].
      change "" with ("" ++ ""). constructor; auto.
    + apply orb_true_iff in H as [H|H]; [apply acc_or_l | apply acc_or_r]; auto.
    + constructor.
  - intros H. remember "" as s eqn:Hs.
    induction H; simpl; try discriminate; auto.
    + apply append_empty in Hs as [-> ->]. rewrite IHaccepts1, IHaccepts2; auto.
    + rewrite IHaccepts; auto.
    + rewrite IHaccepts; auto using orb_true_r.
Qed.

(** A non-empty match of a starred pattern starts with a non-empty match of
    the pattern. *)
Lemma accepts_star_cons (r : regex) (c : ascii) (s : string) :
  accepts (Star r) (String c s) ->
  exists s1 s2, s = s1 ++ s2 /\ accepts r (String c s1) /\ accepts (Star r) s2.
Proof.
  intros H. remember (Star r) as r' eqn:Hr. remember (String c s) as s' eqn:Hs.
  revert s Hs.
  induction H as [| | | | | |r0 t1 t2 H1 IH1 H2 IH2]; intros t Ht; try discriminate.
  injection Hr as ->.
  destruct t1 as [|c1 t1]; simpl in Ht.
  - now apply IH2.
  - injection Ht as Hc Ht. subst c1 t. exists t1, t2. auto.
Qed.

Lemma accepts_cat (r1 r2 : regex) (s : string) :
  accepts (Cat r1 r2) s <-> exists s1 s2, s = s1 ++ s2 /\ accepts r1 s1 /\ accepts r2 s2.
Proof.
  split.
  - intros H. inversion H; subst. eauto.
  - intros (s1 & s2 & -> & H1 & H2). now constructor.
Qed.

Lemma accepts_deriv (c : ascii) (r : regex) (s : string) :
  accepts (deriv c r) s <-> accepts r (String c s).
Proof.
  revert s. induction r as [| |a|r1 IH1 r2 IH2|r1 IH1 r2 IH2|r1 IH1]; intros s; simpl.
  - split; intros H; inversion H.
  - split; intros H; inversion H.
  - destruct (a c) eqn:Hc; split; intros H; inversion H; subst.
    + now constructor.
    + constructor.
    + congruence.
  - assert (Hcat : accepts (Cat (deriv c r1) r2) s -> accepts (Cat r1 r2) (String c s)).
    { intros H. apply accepts_cat in H as (s1 & s2 & -> & H1 & H2).
      change (String c (s1 ++ s2)) with (String c s1 ++ s2).
      constructor; [now apply IH1 | assumption]. }
    assert (Hback : accepts (Cat r1 r2) (String c s) ->
                    accepts (Cat (deriv c r1) r2) s
                    \/ (nullable r1 = true /\ accepts (deriv c r2) s)).
    { intros H. apply accepts_cat in H as (s1 & s2 & Heq & H1 & H2).
      destruct s1 as [|c1 s1]; simpl in Heq.
      - right. subst s2. split; [now apply accepts_nullable | now apply IH2].
      - injection Heq as Hc Hs. subst c1 s. left.
        constructor; [now apply IH1 | assumption]. }
    destruct (nullable r1) eqn:Hn.
    + split.
      * intros H. inversion H; subst; [now apply Hcat|].
        change (String c s) with ("" ++ String c s).
        constructor; [now apply accepts_nullable | now apply IH2].
      * intros H. destruct (Hback H) as [H'|[_ H']];
          [now apply acc_or_l | now apply acc_or_r].
    + split; [exact Hcat|].
      intros H. destruct (Hback H) as [H'|[H' _]]; [exact H' | discriminate].
  - split; intros H; inversion H; subst;
      solve [apply acc_or_l; now apply IH1 | apply acc_or_r; now apply IH2].
  - split.
    + intros H. apply accepts_cat in H as (s1 & s2 & -> & H1 & H2).
      change (String c (s1 ++ s2)) with (String c s1 ++ s2).
      constructor; [now apply IH1 | assumption].
    + intros H. apply accepts_star_cons in H as (s1 & s2 & -> & H1 & H2).
      constructor; [now apply IH1 | assumption].
Qed.

(** The derivative matcher decides the language of the pattern. *)
Lemma test_accepts (r : regex) (s : string) : test r s = true <-> accepts r s.
Proof.
  revert r. induction s as [|c s IH]; intros r; simpl.
  - apply accepts_nullable.
  - rewrite IH. apply accepts_deriv.
Qed.

Lemma accepts_char (c : ascii) (s : string) : accepts (char c) s <-> s = String c "".
Proof.
  unfold char. split.
  - intros H. inversion H as [|? c' Hc| | | | |]; subst.
    apply Ascii.eqb_eq in Hc. now subst.
  - intros ->. constructor. apply Ascii.eqb_refl.
Qed.

Lemma accepts_exactly_class (n : nat) (p : ascii -> bool) (s : string) :
  accepts (exactly n (Class p)) s <-> String.length s = n /\ allChars p s = true.
Proof.
  revert s. induction n as [|n IH]; intros s; simpl.
  - split.
    + intros H. inversion H. auto.
    + intros [Hlen _]. destruct s; [constructor | discriminate].
  - rewrite accepts_cat. split.
    + intros (s1 & s2 & -> & H1 & H2). inversion H1; subst.
      apply IH in H2 as [Hlen Hall]. simpl. rewrite Hlen, Hall.
      split; [reflexivity|]. now rewrite andb_true_r.
    + intros [Hlen Hall]. destruct s as [|c s]; [discriminate|].
      simpl in Hlen, Hall. apply andb_true_iff in Hall as [Hc Hall].
      exists (String c ""), s. repeat split; [now constructor|].
      apply IH. split; [now injection Hlen | assumption].
Qed.

Lemma accepts_upTo_class (n : nat) (p : ascii -> bool) (s : string) :
  accepts (upTo n (Class p)) s <-> (String.length s <= n)%nat /\ allChars p s = true.
Proof.
  revert s. induction n as [|n IH]; intros s; simpl.
  - split.
    + intros H. inversion H. auto.
    + intros [Hlen _]. destruct s; [constructor | simpl in Hlen; lia].
  - split.
    + intros H. inversion H as [| | |? ? ? H1|? ? ? H1| |]; subst.
      * inversion H1. simpl. split; [lia | reflexivity].
      * apply accepts_cat in H1 as (s1 & s2 & -> & H1 & H2). inversion H1; subst.
        apply IH in H2 as [Hlen Hall]. simpl. rewrite Hall, andb_true_r.
        split; [lia | assumption].
    + intros [Hlen Hall]. destruct s as [|c s]; [apply acc_or_l; constructor|].
      simpl in Hlen, Hall. apply andb_true_iff in Hall as [Hc Hall].
      apply acc_or_r. change (String c s) with (String c "" ++ s).
      constructor; [now constructor|]. apply IH. split; [lia | assumption].
Qed.

Lemma accepts_between_class (lo hi : nat) (p : ascii -> bool) (s : string) :
  (lo <= hi)%nat ->
  accepts (between lo hi (Class p)) s
  <-> (lo <= String.length s <= hi)%nat /\ allChars p s = true.
Proof.
  intros Hle. unfold between. rewrite accepts_cat. split.
  - intros (s1 & s2 & -> & H1 & H2).
    apply accepts_exactly_class in H1 as [Hl1 Ha1].
    apply accepts_upTo_class in H2 as [Hl2 Ha2].
    rewrite length_append, allChars_append, Ha1, Ha2. split; [lia | reflexivity].
  - intros [Hlen Hall].
    exists (substring 0 lo s), (substring lo (String.length s - lo) s).
    assert (Hsplit : s = substring 0 lo s ++ substring lo (String.length s - lo) s).
    { clear Hall. revert lo Hle Hlen. induction s as [|c s IH]; intros lo Hle Hlen.
      - simpl in Hlen. assert (lo = 0%nat) by lia. subst. reflexivity.
      - destruct lo as [|lo]; simpl.
        + f_equal. clear. induction s as [|c s IH]; simpl; [reflexivity|].
          now rewrite <- IH.
        + f_equal. simpl in Hlen. apply (IH lo); lia. }
    split; [exact Hsplit|].
    rewrite Hsplit, allChars_append in Hall. apply andb_true_iff in Hall as [Ha1 Ha2].
    assert (Hl1 : String.length (substring 0 lo s) = lo).
    { clear - Hlen. revert lo Hlen. induction s as [|c s IH]; intros lo Hlen.
      - simpl in Hlen. assert (lo = 0%nat) by lia. subst. reflexivity.
      - destruct lo as [|lo]; simpl; [reflexivity|]. f_equal. apply IH. simpl in Hlen. lia. }
    split.
    + apply accepts_exactly_class. auto.
    + apply accepts_upTo_class. split; [|assumption].
      assert (Hl : String.length s
                   = (String.length (substring 0 lo s)
                      + String.length (substring lo (String.length s - lo) s))%nat)
        by (rewrite <- length_append, <- Hsplit; reflexivity).
      lia.
Qed.

(** A string in the language of a pattern is made of the characters of its
    classes. *)
Lemma accepts_alphabet (p : ascii -> bool) (r : regex) (s : string) :
  alphabet p r -> accepts r s -> allChars p s = true.
Proof.
  intros Ha H. induction H; simpl in *; try reflexivity.
  - now rewrite (Ha c H).
  - destruct Ha as [Ha1 Ha2]. rewrite allChars_append, IHaccepts1, IHaccepts2; auto.
  - destruct Ha as [Ha1 Ha2]. auto.
  - destruct Ha as [Ha1 Ha2]. auto.
  - rewrite allChars_append, IHaccepts1, IHaccepts2; auto.
Qed.
End RegexFacts.

Module AttachmentFacts.
Import regexp attachment RegexFacts.

Lemma accepts_Empty (s : string) : accepts Empty s <-> s = "".
Proof. split; [intros H; now inversion H | intros ->; constructor]. Qed.

Lemma octet_accepts (g : string) :
  accepts (between 1 3 (Class digit)) g <-> isOctetText g = true.
Proof.
  rewrite accepts_between_class by lia. unfold isOctetText.
  rewrite !andb_true_iff, Nat.leb_le, Nat.leb_le. tauto.
Qed.

(** The language of the IPv4 pattern: four groups of one to three digits,
    separated by dots. *)
Lemma ipv4_accepts (h : string) :
  accepts ipv4Regex h
  <-> exists a b c d,
      h = a ++ "." ++ b ++ "." ++ c ++ "." ++ d
      /\ isOctetText a = true /\ isOctetText b = true
      /\ isOctetText c = true /\ isOctetText d = true.
Proof.
  unfold ipv4Regex. cbn [exactly]. split.
  - intros H.
    apply accepts_cat in H as (abc & d & -> & H & Hd).
    apply accepts_cat in H as (a' & bc & -> & Ha & H).
    apply accepts_cat in H as (b' & c0 & -> & Hb & H).
    apply accepts_cat in H as (c' & e & -> & Hc & He).
    apply accepts_Empty in He as ->.
    apply accepts_cat in Ha as (a & dot1 & -> & Ha & Hdot1).
    apply accepts_cat in Hb as (b & dot2 & -> & Hb & Hdot2).
    apply accepts_cat in Hc as (c & dot3 & -> & Hc & Hdot3).
    apply accepts_char in Hdot1 as ->. apply accepts_char in Hdot2 as ->.
    apply accepts_char in Hdot3 as ->.
    exists a, b, c, d. rewrite append_nil_r, !append_assoc. cbn [append].
    repeat split; now apply octet_accepts.
  - intros (a & b & c & d & -> & Ha & Hb & Hc & Hd).
    replace (a ++ "." ++ b ++ "." ++ c ++ "." ++ d)
      with (((a ++ ".") ++ (b ++ ".") ++ (c ++ ".") ++ "") ++ d)
      by (rewrite append_nil_r, !append_assoc; reflexivity).
    repeat (constructor; try (now apply octet_accepts); try (now apply accepts_char)).
Qed.

Lemma address_alphabet :
  alphabet isAddressChar ipv4Regex /\ alphabet isAddressChar ipv6Regex
  /\ alphabet isAddressChar ipv6ShortRegex.
Proof.
  assert (Hdigit : forall c, digit c = true -> isAddressChar c = true).
  { intros c H. unfold isAddressChar, hexDigit. now rewrite H. }
  assert (Hhex : forall c, hexDigit c = true -> isAddressChar c = true).
  { intros c H. unfold isAddressChar. now rewrite H. }
  assert (Hdot : forall c, Ascii.eqb "." c = true -> isAddressChar c = true).
  { intros c H. unfold isAddressChar. rewrite H. now rewrite orb_true_r. }
  assert (Hcolon : forall c, Ascii.eqb ":" c = true -> isAddressChar c = true).
  { intros c H. unfold isAddressChar. rewrite H. now rewrite !orb_true_r. }
  assert (Hone : forall c, Ascii.eqb "1" c = true -> isAddressChar c = true).
  { intros c H. apply Ascii.eqb_eq in H. now subst. }
  cbn. repeat split; assumption.
Qed.

(** Every accepted host name is made of hexadecimal digits, dots and colons. *)
Lemma isIPAddress_chars (h : string) :
  isIPAddress h = true -> allChars isAddressChar h = true.
Proof.
  unfold isIPAddress. rewrite !orb_true_iff, !test_accepts.
  destruct address_alphabet as (H4 & H6 & H6s).
  intros [[H|H]|H];
    [apply (accepts_alphabet _ _ _ H4 H) | apply (accepts_alphabet _ _ _ H6 H)
    | apply (accepts_alphabet _ _ _ H6s H)].
Qed.

Lemma startsWith_split (s p : string) :
  js.startsWith s p = true -> exists rest, s = p ++ rest.
Proof.
  unfold js.startsWith. revert s.
  induction p as [|c p IH]; intros [|d s]; simpl; try discriminate.
  - now exists "".
  - now exists (String d s).
  - destruct (ascii_dec c d) as [->|]; [|discriminate].
    intros H. destruct (IH s H) as [rest ->]. now exists rest.
Qed.

Lemma getAttachmentType_range (a : Attachment) :
  In (getAttachmentType a) attachmentTypes.
Proof.
  unfold getAttachmentType, attachmentTypes.
  repeat match goal with
         | |- context [if ?b then _ else _] => destruct b
         end; simpl; tauto.
Qed.
(** The three Photoshop types and the four MIDI types, as equations. *)
Lemma isPSD_cases (t : string) :
  isPSD t = true ->
  t = "image/vnd.adobe.photoshop" \/ t = "image/x-photoshop" \/ t = "image/photoshop".
Proof.
  unfold isPSD, js.strictEq. rewrite !orb_true_iff, !String.eqb_eq. tauto.
Qed.

Lemma isMidiFile_cases (t : string) :
  isMidiFile t = true ->
  t = "audio/midi" \/ t = "audio/mid" \/ t = "audio/x-midi" \/ t = "application/x-midi".
Proof.
  unfold isMidiFile, js.strictEq. rewrite !orb_true_iff, !String.eqb_eq. tauto.
Qed.
End AttachmentFacts.

Import regexp attachment RegexFacts AttachmentFacts.

(** X7.  [getAttachmentType] answers with one of eleven fixed types, and
    classifying an answer again gives the same answer: each of the eleven is
    its own class. *)
Theorem getAttachmentType_idempotent :
  forall a : Attachment,
    In (getAttachmentType a) attachmentTypes
    /\ forall b : Attachment,
        type b = getAttachmentType a -> getAttachmentType b = getAttachmentType a.
Proof.
  intros a. split; [apply getAttachmentType_range|].
  intros b Hb. unfold getAttachmentType at 1. rewrite Hb.
  pose proof (getAttachmentType_range a) as Hin. unfold attachmentTypes in Hin.
  repeat (destruct Hin as [<-|Hin]; [reflexivity|]). contradiction.
Qed.

(** X8.  Photoshop images and MIDI files are never reported as [image/*] or
    [audio/*]: every type that [isPSD] or [isMidiFile] recognises is
    classified as [application/octet-stream]. *)
Theorem getAttachmentType_psd_and_midi :
  forall a : Attachment,
    isPSD (type a) = true \/ isMidiFile (type a) = true ->
    getAttachmentType a = "application/octet-stream".
Proof.
  intros a [H|H]; unfold getAttachmentType.
  - apply isPSD_cases in H as [H|[H|H]]; rewrite H; reflexivity.
  - apply isMidiFile_cases in H as [H|[H|[H|H]]]; rewrite H; reflexivity.
Qed.

(** X9.  The four media prefixes decide on their own, whatever follows
    them: a type starting with [video] is [video/*], one starting with [text]
    is [text/*], one starting with [audio] is [audio/*] unless it is a MIDI
    type, and one starting with [image/] is [image/*] unless it is a
    Photoshop type; the two exceptions are [application/octet-stream]. *)
Theorem getAttachmentType_media_prefixes :
  forall a : Attachment,
    (js.startsWith (type a) "video" = true -> getAttachmentType a = "video/*")
    /\ (js.startsWith (type a) "text" = true -> getAttachmentType a = "text/*")
    /\ (js.startsWith (type a) "audio" = true ->
        getAttachmentType a
        = if isMidiFile (type a) then "application/octet-stream" else "audio/*")
    /\ (js.startsWith (type a) "image/" = true ->
        getAttachmentType a
        = if isPSD (type a) then "application/octet-stream" else "image/*").
Proof.
  intros a. repeat split; intros H.
  - apply startsWith_split in H as [rest H].
    unfold getAttachmentType. rewrite H. destruct rest; reflexivity.
  - apply startsWith_split in H as [rest H].
    unfold getAttachmentType. rewrite H. destruct rest; reflexivity.
  - destruct (isMidiFile (type a)) eqn:Hmidi.
    + unfold getAttachmentType.
      apply isMidiFile_cases in Hmidi as [E|[E|[E|E]]]; rewrite E; reflexivity.
    + unfold getAttachmentType. rewrite Hmidi.
      apply startsWith_split in H as [rest H]. rewrite H. destruct rest; reflexivity.
  - destruct (isPSD (type a)) eqn:Hpsd.
    + unfold getAttachmentType.
      apply isPSD_cases in Hpsd as [E|[E|E]]; rewrite E; reflexivity.
    + unfold getAttachmentType, isImage. rewrite Hpsd, H. reflexivity.
Qed.

(** X10.  The IPv4 pattern accepts exactly the strings made of four groups
    of one to three decimal digits separated by dots; the groups are not
    range-checked, so every such string counts as an IP address. *)
Theorem ipv4Regex_dotted_quad :
  forall h : string,
    (test ipv4Regex h = true
     <-> exists a b c d,
         h = a ++ "." ++ b ++ "." ++ c ++ "." ++ d
         /\ isOctetText a = true /\ isOctetText b = true
         /\ isOctetText c = true /\ isOctetText d = true)
    /\ (test ipv4Regex h = true -> isIPAddress h = true).
Proof.
  intros h. split.
  - rewrite test_accepts. apply ipv4_accepts.
  - intros H. unfold isIPAddress. now rewrite H.
Qed.

(** X11.  A host name with a character that is no hexadecimal digit, dot or
    colon is never taken for an IP address: there the URL of an attachment
    is its external link when it has one, and otherwise the origin followed
    by [/files/] and the attachment's reference. *)
Theorem getAttachmentUrl_named_host :
  forall (location : Location) (a : Attachment),
    allChars isAddressChar (hostname location) = false ->
    isIPAddress (hostname location) = false
    /\ getAttachmentUrl location a
       = if js.truthy (externalLink a) then externalLink a
         else origin location ++ "/files/" ++ reference a.
Proof.
  intros location a Hchars.
  assert (Hip : isIPAddress (hostname location) = false).
  { destruct (isIPAddress (hostname location)) eqn:E; [|reflexivity].
    apply isIPAddress_chars in E. congruence. }
  split; [exact Hip|]. unfold getAttachmentUrl. now rewrite Hip.
Qed.

(** X12.  On a host named by a dotted quad, an attachment without external
    link is addressed by the origin followed by [/file/], its name, a slash
    and its file name. *)
Theorem getAttachmentUrl_dotted_quad_host :
  forall (location : Location) (att : Attachment) (a b c d : string),
    isOctetText a = true -> isOctetText b = true ->
    isOctetText c = true -> isOctetText d = true ->
    hostname location = a ++ "." ++ b ++ "." ++ c ++ "." ++ d ->
    externalLink att = "" ->
    getAttachmentUrl location att
    = origin location ++ "/file/" ++ name att ++ "/" ++ filename att.
Proof.
  intros location att a b c d Ha Hb Hc Hd Hhost Hlink.
  assert (H4 : test ipv4Regex (hostname location) = true).
  { apply test_accepts, ipv4_accepts. exists a, b, c, d. auto. }
  unfold getAttachmentUrl, isIPAddress. rewrite Hlink, H4. reflexivity.
Qed.

(** ** The helpers on sample inputs *)

Lemma UpsertMemoReaction_panics_on_nil_reaction_witness :
  UpsertMemoReaction (Sample.world []) (Some 3)
    {| v1pb.UpsertReq_Name := "memos/m1"; v1pb.UpsertReq_Reaction := None |}
  = (Sample.world [], Panic).
Proof.
  destruct (UpsertMemoReaction_panics_on_nil_reaction memService (Sample.world [])
              (Some 3)
              {| v1pb.UpsertReq_Name := "memos/m1"; v1pb.UpsertReq_Reaction := None |})
    as [[_ Hpanic] Hworld].
  assert (H : snd (UpsertMemoReaction (Sample.world []) (Some 3)
                     {| v1pb.UpsertReq_Name := "memos/m1";
                        v1pb.UpsertReq_Reaction := None |}) = Panic).
  { apply Hpanic. split; [exists Sample.carol|]; reflexivity. }
  rewrite (surjective_pairing (UpsertMemoReaction _ _ _)), H, (Hworld H).
  reflexivity.
Defined.

Lemma UpsertMemoReaction_unresolved_memo_is_silent_witness :
  let r := UpsertMemoReaction (Sample.world [Mem.OpGetMemo]) (Some 3)
             (Sample.react "memos/m1" "party") in
  logs (fst r) = [] /\ outbox (fst r) = [] /\ snd r = Return Sample.party.
Proof.
  cbv zeta.
  rewrite (UpsertMemoReaction_unresolved_memo_is_silent memService
             (Sample.world [Mem.OpGetMemo]) (Some 3) (Sample.react "memos/m1" "party")
             Sample.carol _ _ _ eq_refl eq_refl eq_refl I).
  repeat split.
Defined.

Lemma convertReactionFromStore_injective_witness :
  {| store.ID := 1; store.CreatedTs := 100; store.CreatorID := 2;
     store.ContentID := "memos/m1"; store.ReactionType := "thumbs-up" |} = Sample.r1.
Proof.
  apply (convertReactionFromStore_injective memService). reflexivity.
Defined.

Lemma getAttachmentType_psd_and_midi_witness :
  getAttachmentType (ofType "image/x-photoshop") = "application/octet-stream"
  /\ getAttachmentType (ofType "audio/midi") = "application/octet-stream".
Proof.
  split; apply getAttachmentType_psd_and_midi; [left | right]; reflexivity.
Defined.

Lemma getAttachmentType_media_prefixes_witness :
  getAttachmentType (ofType "video/mp4") = "video/*"
  /\ getAttachmentType (ofType "text/x-word") = "text/*"
  /\ getAttachmentType (ofType "audio/x-midi") = "application/octet-stream".
Proof.
  destruct (getAttachmentType_media_prefixes (ofType "video/mp4")) as [Hv _].
  destruct (getAttachmentType_media_prefixes (ofType "text/x-word")) as [_ [Ht _]].
  destruct (getAttachmentType_media_prefixes (ofType "audio/x-midi")) as [_ [_ [Ha _]]].
  split; [exact (Hv eq_refl) | split; [exact (Ht eq_refl) | exact (Ha eq_refl)]].
Defined.

Lemma ipv4Regex_dotted_quad_witness :
  isIPAddress "999.999.999.999" = true.
Proof.
  apply (ipv4Regex_dotted_quad "999.999.999.999"). reflexivity.
Defined.

Lemma getAttachmentUrl_named_host_witness :
  getAttachmentUrl {| origin := "https://memos.example.com";
                      hostname := "memos.example.com" |} (ofType "image/png")
  = "https://memos.example.com/files/ref".
Proof.
  exact (proj2 (getAttachmentUrl_named_host
                  {| origin := "https://memos.example.com";
                     hostname := "memos.example.com" |} (ofType "image/png") eq_refl)).
Defined.

Lemma getAttachmentUrl_dotted_quad_host_witness :
  getAttachmentUrl {| origin := "http://192.168.1.20:5230"; hostname := "192.168.1.20" |}
    (ofType "image/png")
  = "http://192.168.1.20:5230/file/attachments/1/file".
Proof.
  exact (getAttachmentUrl_dotted_quad_host
           {| origin := "http://192.168.1.20:5230"; hostname := "192.168.1.20" |}
           (ofType "image/png") "192" "168" "1" "20"
           eq_refl eq_refl eq_refl eq_refl eq_refl eq_refl).
Defined.

(** * Properties of the image preview dialog *)

Module PreviewFacts.
Import number preview.

Lemma same_eq (a b : Number) : same a b = true -> a = b.
Proof.
  destruct a as [s1|s1| |s1 m1 e1], b as [s2|s2| |s2 m2 e2]; simpl; try discriminate;
    try reflexivity.
  - intros H. apply Bool.eqb_prop in H. now subst.
  - intros H. apply Bool.eqb_prop in H. now subst.
  - rewrite !andb_true_iff. intros [[Hs Hm] He].
    apply Bool.eqb_prop in Hs. apply Pos.eqb_eq in Hm. apply Z.eqb_eq in He. now subst.
Qed.

Lemma same_refl (a : Number) : same a a = true.
Proof.
  destruct a as [s|s| |s m e]; simpl; rewrite ?Bool.eqb_reflx, ?Pos.eqb_refl, ?Z.eqb_refl;
    reflexivity.
Qed.

Lemma In_same (s : Number) (l : list Number) : In s l <-> existsb (same s) l = true.
Proof.
  rewrite existsb_exists. split.
  - intros H. exists s. split; [assumption | apply same_refl].
  - intros (t & Ht & Hst). apply same_eq in Hst. now subst.
Qed.

(** The zoom levels are closed under both zoom steps and lie within the two
    bounds. *)
Lemma zoomLevels_closed (s : Number) :
  In s zoomLevels -> In (zoomInScale s) zoomLevels /\ In (zoomOutScale s) zoomLevels.
Proof.
  assert (H : forallb (fun s => existsb (same (zoomInScale s)) zoomLevels
                                && existsb (same (zoomOutScale s)) zoomLevels)
                      zoomLevels = true) by (vm_compute; reflexivity).
  rewrite forallb_forall in H. intros Hs. apply H in Hs.
  apply andb_true_iff in Hs as [Hin Hout]. split; now apply In_same.
Qed.

Lemma zoomLevels_bounded (s : Number) :
  In s zoomLevels -> le MIN_SCALE s = true /\ le s MAX_SCALE = true.
Proof.
  assert (H : forallb (fun s => le MIN_SCALE s && le s MAX_SCALE) zoomLevels = true)
    by (vm_compute; reflexivity).
  rewrite forallb_forall in H. intros Hs. apply H in Hs.
  now apply andb_true_iff in Hs.
Qed.

Lemma zoomLevels_one : In one zoomLevels.
Proof. apply In_same. vm_compute. reflexivity. Qed.

(** Twenty steps reach the bound from every level. *)
Lemma zoomLevels_saturate (s : Number) :
  In s zoomLevels ->
  Nat.iter 20 zoomInScale s = MAX_SCALE /\ Nat.iter 20 zoomOutScale s = MIN_SCALE.
Proof.
  assert (H : forallb (fun s => same (Nat.iter 20 zoomInScale s) MAX_SCALE
                                && same (Nat.iter 20 zoomOutScale s) MIN_SCALE)
                      zoomLevels = true) by (vm_compute; reflexivity).
  rewrite forallb_forall in H. intros Hs. apply H in Hs.
  apply andb_true_iff in Hs as [Hin Hout]. split; now apply same_eq.
Qed.

(** Every event keeps the scale among the zoom levels. *)
Lemma step_scale (ps : Props * State) (e : Event) :
  In (scale (snd ps)) zoomLevels -> In (scale (snd (fst (step ps e)))) zoomLevels.
Proof.
  destruct ps as [props st]. cbn [snd]. intros Hs.
  destruct (zoomLevels_closed _ Hs) as [Hin Hout]. pose proof zoomLevels_one as Hone.
  destruct e as [d|key m c|cx cy|cx cy| |b| |props']; cbn [step].
  - unfold handleWheel. destruct (lt d zero); assumption.
  - unfold handleKeyDown.
    destruct (negb (open props)); [assumption|].
    destruct (js.strictEq key "Escape"); [assumption|].
    destruct (m || c); [|assumption].
    destruct (js.strictEq key "+" || js.strictEq key "="); [assumption|].
    destruct (js.strictEq key "-"); [assumption|].
    destruct (js.strictEq key "0"); assumption.
  - assumption.
  - unfold handleMouseMove.
    destruct (negb (open props)); [assumption|].
    destruct (negb (isDragging st)); assumption.
  - unfold handleMouseUp. destruct (negb (open props)); assumption.
  - unfold handleBackdropClick. destruct (b && negb (isDragging st)); assumption.
  - assumption.
  - destruct (same _ _ && Bool.eqb _ _); [assumption|].
    unfold openEffect. destruct (open props'); assumption.
Qed.

Lemma run_scale (events : list Event) (ps : Props * State) :
  In (scale (snd ps)) zoomLevels -> In (scale (snd (fst (run ps events)))) zoomLevels.
Proof.
  revert ps. induction events as [|e events IH]; intros ps Hs; cbn [run].
  - assumption.
  - pose proof (step_scale ps e Hs) as Hstep.
    destruct (step ps e) as [ps' calls]. cbn [fst] in Hstep.
    pose proof (IH ps' Hstep) as Hrun.
    destruct (run ps' events) as [ps'' calls']. assumption.
Qed.

(** [n] wheel turns in one direction are [n] zoom steps. *)
Lemma run_wheels (deltaY : Number) (n : nat) (props : Props) (st : State) :
  scale (snd (fst (run (props, st) (repeat (Wheel deltaY) n))))
  = Nat.iter n (if lt deltaY zero then zoomInScale else zoomOutScale) (scale st).
Proof.
  revert st. induction n as [|n IH]; intros st; [reflexivity|].
  cbn [repeat run step handleWheel].
  pose proof (IH (if lt deltaY zero then zoomIn st else zoomOut st)) as Hn.
  destruct (run _ (repeat (Wheel deltaY) n)) as [ps'' calls']. cbn [fst snd] in *.
  rewrite Hn. destruct (lt deltaY zero); rewrite Nat.iter_succ_r; reflexivity.
Qed.

Lemma compare_refl (a : Number) : isNaN a = false -> SFcompare a a = Some Eq.
Proof.
  destruct a as [s|s| |s m e]; simpl; try discriminate; intros _.
  - reflexivity.
  - destruct s; reflexivity.
  - destruct s; rewrite Z.compare_refl, ?Pos.compare_cont_refl; try reflexivity.
Qed.

Lemma zoom_fixpoints (n : nat) :
  Nat.iter n zoomInScale MAX_SCALE = MAX_SCALE
  /\ Nat.iter n zoomOutScale MIN_SCALE = MIN_SCALE.
Proof.
  induction n as [|n [IHin IHout]]; [split; reflexivity|].
  cbn [Nat.iter nat_rect]. unfold Nat.iter in IHin, IHout. rewrite IHin, IHout.
  split; vm_compute; reflexivity.
Qed.

Lemma drag_run (events : list Event) (props : Props) (st : State) :
  open props = true -> isDragging st = true ->
  forallb dragEvent events = true ->
  isDragging (snd (fst (run (props, st) events))) = true
  /\ dragStartRef (snd (fst (run (props, st) events))) = dragStartRef st
  /\ fst (fst (run (props, st) events)) = props
  /\ position (snd (fst (run (props, st) events)))
     = match lastMove events with
       | Some (cx, cy) =>
           {| x := add (posX (dragStartRef st)) (sub cx (startX (dragStartRef st)));
              y := add (posY (dragStartRef st)) (sub cy (startY (dragStartRef st))) |}
       | None => position st
       end.
Proof.
  intros Hopen. revert st.
  induction events as [|e events IH]; intros st Hdrag Hall; [now cbn|].
  cbn [forallb] in Hall. apply andb_true_iff in Hall as [He Hall].
  destruct e as [d|key m c|cx cy|cx cy| |b| |props']; try discriminate.
  - cbn [run step handleWheel lastMove].
    set (st1 := if lt d zero then zoomIn st else zoomOut st).
    assert (H1 : isDragging st1 = true /\ dragStartRef st1 = dragStartRef st
                 /\ position st1 = position st)
      by (subst st1; destruct (lt d zero); cbn; auto).
    destruct H1 as (Hd1 & Hr1 & Hp1).
    destruct (IH st1 Hd1 Hall) as (Hd & Hr & Hps & Hp).
    destruct (run (props, st1) events) as [ps'' calls']. cbn [fst snd] in *.
    rewrite Hr, Hp, Hr1, Hp1. destruct (lastMove events) as [[cx cy]|]; auto.
  - cbn [run step lastMove]. unfold handleMouseMove. rewrite Hopen, Hdrag. cbn [negb].
    set (st1 := setPosition _ st).
    destruct (IH st1 Hdrag Hall) as (Hd & Hr & Hps & Hp).
    destruct (run (props, st1) events) as [ps'' calls']. cbn [fst snd] in *.
    rewrite Hr, Hp. destruct (lastMove events) as [[cx' cy']|]; auto.
Qed.

(** X13.  Whatever events reach a mounted dialog, in whatever order, its
    zoom scale stays between [MIN_SCALE] and [MAX_SCALE]; it is one of the
    59 doubles reachable from 1 by steps of [SCALE_STEP], never NaN or
    infinite. *)
Theorem scale_stays_in_range :
  forall (props : Props) (events : list Event),
    In (scale (snd (fst (run (props, mount props) events)))) zoomLevels
    /\ le MIN_SCALE (scale (snd (fst (run (props, mount props) events)))) = true
    /\ le (scale (snd (fst (run (props, mount props) events)))) MAX_SCALE = true.
Proof.
  intros props events.
  assert (Hin : In (scale (snd (fst (run (props, mount props) events)))) zoomLevels)
    by (apply run_scale, zoomLevels_one).
  split; [exact Hin|]. now apply zoomLevels_bounded.
Qed.

(** X14.  Zooming saturates: after any history, twenty or more wheel turns
    in one direction leave the scale at exactly [MAX_SCALE] (turning up,
    [deltaY < 0]) or exactly [MIN_SCALE] (any other [deltaY], NaN
    included). *)
Theorem zoom_saturates :
  forall (props : Props) (events : list Event) (deltaY : Number) (n : nat),
    (20 <= n)%nat ->
    scale (snd (fst (run (fst (run (props, mount props) events))
                         (repeat (Wheel deltaY) n))))
    = if lt deltaY zero then MAX_SCALE else MIN_SCALE.
Proof.
  intros props events deltaY n Hn.
  pose proof (run_scale events (props, mount props) zoomLevels_one) as Hin.
  destruct (fst (run (props, mount props) events)) as [props' st]. cbn [snd] in Hin.
  rewrite run_wheels.
  replace n with ((n - 20) + 20)%nat by lia. rewrite Nat.iter_add.
  destruct (zoomLevels_saturate _ Hin) as [Hup Hdown].
  destruct (zoom_fixpoints (n - 20)) as [Fup Fdown].
  destruct (lt deltaY zero); [now rewrite Hup | now rewrite Hdown].
Qed.

(** X15.  While an image is dragged in an open dialog, the position depends
    on the last pointer move only: it is the position at the start of the
    drag plus the pointer's displacement since then, so intermediate moves
    and wheel turns leave no trace in it. *)
Theorem drag_follows_pointer :
  forall (props : Props) (st : State) (startX0 startY0 : Number) (events : list Event),
    open props = true ->
    forallb dragEvent events = true ->
    position (snd (fst (run (props, fst (handleImageMouseDown startX0 startY0 st)) events)))
    = match lastMove events with
      | Some (cx, cy) =>
          {| x := add (x (position st)) (sub cx startX0);
             y := add (y (position st)) (sub cy startY0) |}
      | None => position st
      end.
Proof.
  intros props st startX0 startY0 events Hopen Hall.
  destruct (drag_run events props (fst (handleImageMouseDown startX0 startY0 st))
              Hopen eq_refl Hall) as (_ & _ & _ & Hp).
  exact Hp.
Qed.

(** X16.  The dialog never asks to be opened.  It asks to be closed only
    when Escape is pressed while it is open, when the close button is
    clicked, or when the backdrop itself is clicked while nothing is being
    dragged; the state is left as it was. *)
Theorem close_requests :
  forall (props : Props) (st : State) (e : Event) (b : bool),
    In (onOpenChange b) (snd (step (props, st) e)) ->
    b = false
    /\ snd (fst (step (props, st) e)) = st
    /\ (e = CloseClick
        \/ (exists metaKey ctrlKey, e = KeyDown "Escape" metaKey ctrlKey
                                    /\ open props = true)
        \/ (e = BackdropClick true /\ isDragging st = false)).
Proof.
  intros props st e b.
  destruct e as [d|key m c|cx cy|cx cy| |onBackdrop| |props']; cbn [step].
  - cbn. intros [H|[]]. discriminate.
  - unfold handleKeyDown. destruct (open props) eqn:Hopen; cbn [negb]; [|intros []].
    destruct (js.strictEq key "Escape") eqn:Hkey.
    + apply String.eqb_eq in Hkey. subst key. cbn. intros [[= <-]|[]].
      repeat split. right. left. now exists m, c.
    + destruct (m || c); [|intros []].
      destruct (js.strictEq key "+" || js.strictEq key "=");
        [cbn; intros [H|[]]; discriminate|].
      destruct (js.strictEq key "-"); [cbn; intros [H|[]]; discriminate|].
      destruct (js.strictEq key "0"); [cbn; intros [H|[]]; discriminate|intros []].
  - cbn. intros [H|[]]. discriminate.
  - intros [].
  - intros [].
  - unfold handleBackdropClick.
    destruct onBackdrop; cbn [andb]; [|intros []].
    destruct (isDragging st) eqn:Hdrag; cbn [negb]; [intros []|].
    cbn. intros [[= <-]|[]]. repeat split. right. right. auto.
  - cbn. intros [[= <-]|[]]. repeat split. now left.
  - destruct (same _ _ && Bool.eqb _ _); intros [].
Qed.

(** X17.  The index clamp of the render: for an index that is a number,
    over a list whose last index is not negative, [safeIndex] lies between 0
    and the last index; a NaN index is not repaired, [safeIndex] is then NaN
    as well. *)
Theorem safeIndex_bounds :
  forall (props : Props) (st : State),
    le zero (lastIndex (imgUrls props)) = true ->
    (isNaN (currentIndex st) = false ->
     le zero (safeIndex props st) = true
     /\ le (safeIndex props st) (lastIndex (imgUrls props)) = true)
    /\ (isNaN (currentIndex st) = true -> isNaN (safeIndex props st) = true).
Proof.
  intros props st. unfold safeIndex.
  set (c := currentIndex st). set (last := lastIndex (imgUrls props)).
  intros Hlast.
  assert (Hlast_num : isNaN last = false).
  { destruct last; try reflexivity. discriminate. }
  split.
  - intros Hc.
    assert (Hm : isNaN (Math_min c last) = false /\ le (Math_min c last) last = true).
    { unfold Math_min, le, SFleb. rewrite Hc, Hlast_num. cbn [orb].
      destruct (SFcompare c last) as [[| |]|] eqn:E.
      - destruct c as [[|]|[|]| |]; try discriminate Hc;
          rewrite ?E, ?Hlast_num, ?(compare_refl last Hlast_num); auto.
      - rewrite E. auto.
      - rewrite (compare_refl last Hlast_num). auto.
      - destruct c as [[|]|[|]| |]; try discriminate Hc;
          rewrite ?E, ?Hlast_num, ?(compare_refl last Hlast_num); auto;
          destruct last; discriminate. }
    destruct Hm as [Hm_num Hm_le].
    unfold Math_max. rewrite Hm_num. cbn [isNaN zero orb].
    unfold le, SFleb in *.
    destruct (SFcompare zero (Math_min c last)) as [[| |]|] eqn:E;
      cbn [zero]; rewrite ?E; auto.
  - intros Hc. unfold Math_min. rewrite Hc. reflexivity.
Qed.

(** ** The dialog on sample inputs *)

Lemma zoom_saturates_witness :
  scale (snd (fst (run (fst (run ({| open := true; imgUrls := ["a.png"];
                                     initialIndex := zero |},
                                  mount {| open := true; imgUrls := ["a.png"];
                                           initialIndex := zero |})
                                 [Wheel one; Wheel one; KeyDown "0" true false;
                                  Wheel one]))
                       (repeat (Wheel (ofZ (-1))) 20))))
  = MAX_SCALE.
Proof.
  exact (zoom_saturates {| open := true; imgUrls := ["a.png"]; initialIndex := zero |}
           [Wheel one; Wheel one; KeyDown "0" true false; Wheel one]
           (ofZ (-1)) 20 (le_n 20)).
Defined.

Lemma drag_follows_pointer_witness :
  position
    (snd (fst (run ({| open := true; imgUrls := ["a.png"]; initialIndex := zero |},
                    fst (handleImageMouseDown (ofZ 10) (ofZ 10)
                           (mount {| open := true; imgUrls := ["a.png"];
                                     initialIndex := zero |})))
                   [MouseMove (ofZ 15) (ofZ 12); Wheel one;
                    MouseMove (ofZ 30) (ofZ 40)])))
  = {| x := ofZ 20; y := ofZ 30 |}.
Proof.
  exact (drag_follows_pointer
           {| open := true; imgUrls := ["a.png"]; initialIndex := zero |}
           (mount {| open := true; imgUrls := ["a.png"]; initialIndex := zero |})
           (ofZ 10) (ofZ 10)
           [MouseMove (ofZ 15) (ofZ 12); Wheel one; MouseMove (ofZ 30) (ofZ 40)]
           eq_refl eq_refl).
Defined.

Lemma close_requests_witness :
  snd (fst (step ({| open := true; imgUrls := ["a.png"]; initialIndex := zero |},
                  mount {| open := true; imgUrls := ["a.png"]; initialIndex := zero |})
                 (KeyDown "Escape" false true)))
  = mount {| open := true; imgUrls := ["a.png"]; initialIndex := zero |}.
Proof.
  destruct (close_requests
              {| open := true; imgUrls := ["a.png"]; initialIndex := zero |}
              (mount {| open := true; imgUrls := ["a.png"]; initialIndex := zero |})
              (KeyDown "Escape" false true) false (or_introl eq_refl))
    as [_ [Hstate _]].
  exact Hstate.
Defined.

Lemma safeIndex_bounds_witness :
  le (safeIndex {| open := true; imgUrls := ["a.png"; "b.png"; "c.png"];
                   initialIndex := ofZ 7 |}
                (mount {| open := true; imgUrls := ["a.png"; "b.png"; "c.png"];
                          initialIndex := ofZ 7 |}))
     (ofZ 2) = true.
Proof.
  destruct (safeIndex_bounds
              {| open := true; imgUrls := ["a.png"; "b.png"; "c.png"];
                 initialIndex := ofZ 7 |}
              (mount {| open := true; imgUrls := ["a.png"; "b.png"; "c.png"];
                        initialIndex := ofZ 7 |}) eq_refl) as [Hnum _].
  exact (proj2 (Hnum eq_refl)).
Defined.

(** The literals are the doubles nearest to the decimal constants, and the
    floor drifts the grid: four steps down from 1 and four steps up again
    give 1.1, not 1. *)
Example scale_literals :
  MIN_SCALE = div one (ofZ 10) /\ SCALE_STEP = div one (ofZ 4)
  /\ Nat.iter 4 zoomInScale (Nat.iter 4 zoomOutScale one) = div (ofZ 11) (ofZ 10).
Proof. vm_compute. repeat split. Qed.
End PreviewFacts.

(** * Properties of the random review page *)

Module ReviewFacts.
Import number review.

(** One turn of the loop, variable by variable. *)
Lemma visit_spec (rt : Runtime) (acc : Acc) (f : MemoFilter) :
  visit rt acc f
  = {| conditions := (conditions acc ++ ownClauses rt f)%list;
       contentSearch := (contentSearch acc ++ quotedValues "contentSearch" [f])%list;
       tagSearch := (tagSearch acc ++ quotedValues "tagSearch" [f])%list;
       randomSeed := if hasFactor "seed" f then parseInt rt (value f)
                     else randomSeed acc |}.
Proof.
  destruct acc as [cs content tags seed].
  unfold ownClauses, quotedValues, hasFactor.
  unfold visit, pushCondition, js.strictEq.
  cbn [List.filter conditions contentSearch tagSearch randomSeed].
  repeat match goal with
         | |- context [String.eqb (factor f) ?lit] =>
             let E := fresh "E" in
             destruct (String.eqb (factor f) lit) eqn:E;
             [apply String.eqb_eq in E; rewrite E; cbn; rewrite ?app_nil_r;
              reflexivity|]
         end.
  destruct (String.eqb (factor f) "seed"); cbn; now rewrite !app_nil_r.
Qed.

Lemma loop_spec (rt : Runtime) (fs : list MemoFilter) (acc : Acc) :
  fold_left (visit rt) fs acc
  = {| conditions := (conditions acc ++ flat_map (ownClauses rt) fs)%list;
       contentSearch := (contentSearch acc ++ quotedValues "contentSearch" fs)%list;
       tagSearch := (tagSearch acc ++ quotedValues "tagSearch" fs)%list;
       randomSeed :=
         fold_left (fun seed f => if hasFactor "seed" f then parseInt rt (value f)
                                  else seed) fs (randomSeed acc) |}.
Proof.
  revert acc. induction fs as [|f fs IH]; intros acc.
  - destruct acc. cbn. now rewrite !app_nil_r.
  - cbn [fold_left flat_map]. rewrite IH, visit_spec.
    cbn [conditions contentSearch tagSearch randomSeed].
    unfold quotedValues. cbn [List.filter].
    destruct (hasFactor "contentSearch" f), (hasFactor "tagSearch" f);
      cbn [map app]; rewrite <- ?app_assoc; cbn [app]; rewrite ?app_nil_r; reflexivity.
Qed.

(** The memo in closed form: the clauses of the filters in their order,
    then the content search, then the tag search. *)
Lemma buildFilter_closed (rt : Runtime) (fs : list MemoFilter) :
  buildFilter rt fs
  = (join " && "
       (flat_map (ownClauses rt) fs
        ++ searchClause "content_search" (quotedValues "contentSearch" fs)
        ++ searchClause "tag_search" (quotedValues "tagSearch" fs))%list,
     lastSeed rt fs).
Proof.
  unfold buildFilter, lastSeed. rewrite loop_spec. cbn [start conditions contentSearch
    tagSearch randomSeed app].
  destruct (quotedValues "contentSearch" fs) as [|c cs];
    destruct (quotedValues "tagSearch" fs) as [|t ts];
    cbn [List.length Nat.ltb Nat.leb searchClause app]; rewrite ?app_nil_r;
    rewrite <- ?app_assoc; reflexivity.
Qed.

Lemma unknown_is_inert (rt : Runtime) (f : MemoFilter) :
  isKnown f = false ->
  ownClauses rt f = [] /\ hasFactor "contentSearch" f = false
  /\ hasFactor "tagSearch" f = false /\ hasFactor "seed" f = false.
Proof.
  unfold isKnown, knownFactors, ownClauses, visit, hasFactor. cbn [existsb].
  rewrite !orb_false_iff.
  intros (H1 & H2 & H3 & H4 & H5 & H6 & H7 & H8 & _).
  rewrite H1, H2, H3, H4, H5, H6, H7, H8. auto.
Qed.

Lemma search_is_clauseless (rt : Runtime) (f : MemoFilter) :
  hasFactor "contentSearch" f = true \/ hasFactor "tagSearch" f = true ->
  ownClauses rt f = [] /\ hasFactor "seed" f = false.
Proof.
  unfold ownClauses, visit, hasFactor, js.strictEq.
  intros [H|H]; apply String.eqb_eq in H; rewrite H; auto.
Qed.

Lemma lastSeed_app (rt : Runtime) (l1 l2 : list MemoFilter) (seed : Number) :
  fold_left (fun seed f => if hasFactor "seed" f then parseInt rt (value f) else seed)
            (l1 ++ l2) seed
  = fold_left (fun seed f => if hasFactor "seed" f then parseInt rt (value f) else seed)
              l2 (fold_left (fun seed f => if hasFactor "seed" f
                                           then parseInt rt (value f) else seed) l1 seed).
Proof. apply fold_left_app. Qed.

(** X18.  The props of the memo list in closed form: the old filter is the
    [ && ]-join of the clauses of the filters in their order, followed by one
    [content_search] clause listing every content search and one
    [tag_search] clause listing every tag search (each clause only if there
    is such a filter); the sort is [random:] followed by the seed of the
    last [seed] filter, or by the default seed. *)
Theorem RandomReview_props :
  forall (rt : Runtime) (stores : Stores),
    oldFilter (RandomReview rt stores)
    = join " && "
        (flat_map (ownClauses rt) (filters stores)
         ++ searchClause "content_search" (quotedValues "contentSearch" (filters stores))
         ++ searchClause "tag_search" (quotedValues "tagSearch" (filters stores)))%list
    /\ sort (RandomReview rt stores)
       = "random:" ++ Number_toString rt (lastSeed rt (filters stores))
    /\ owner (RandomReview rt stores) = userName stores.
Proof.
  intros rt stores. unfold RandomReview. rewrite buildFilter_closed.
  cbn [oldFilter sort owner]. auto.
Qed.

(** X19.  A filter whose factor is none of the eight the loop knows changes
    nothing: removing it from anywhere in the list leaves the filter
    expression and the seed as they were. *)
Theorem buildFilter_ignores_unknown :
  forall (rt : Runtime) (before after : list MemoFilter) (f : MemoFilter),
    isKnown f = false ->
    buildFilter rt (before ++ f :: after) = buildFilter rt (before ++ after).
Proof.
  intros rt before after f Hf.
  destruct (unknown_is_inert rt f Hf) as (Hown & Hc & Ht & Hs).
  rewrite !buildFilter_closed. unfold quotedValues, lastSeed.
  rewrite !lastSeed_app, !flat_map_app, !filter_app. cbn [flat_map List.filter fold_left].
  now rewrite Hown, Hc, Ht, Hs.
Qed.

(** X20.  A search filter may stand anywhere among filters of other factors:
    swapping a content or tag search with a neighbour of a different factor
    changes neither the filter expression nor the seed, the search clauses
    being appended after the loop. *)
Theorem buildFilter_search_commutes :
  forall (rt : Runtime) (before after : list MemoFilter) (s g : MemoFilter),
    hasFactor "contentSearch" s = true \/ hasFactor "tagSearch" s = true ->
    factor g <> factor s ->
    buildFilter rt (before ++ s :: g :: after) = buildFilter rt (before ++ g :: s :: after).
Proof.
  intros rt before after s g Hs Hg.
  destruct (search_is_clauseless rt s Hs) as [Hown Hseed].
  rewrite !buildFilter_closed. unfold quotedValues, lastSeed.
  rewrite !lastSeed_app, !flat_map_app, !filter_app.
  cbn [flat_map List.filter fold_left]. rewrite Hown, Hseed. cbn [app].
  assert (Hexcl : forall name, hasFactor name s = true -> hasFactor name g = false).
  { intros name H. unfold hasFactor, js.strictEq in *. apply String.eqb_eq in H.
    apply String.eqb_neq. congruence. }
  destruct (hasFactor "contentSearch" s) eqn:Ec, (hasFactor "tagSearch" s) eqn:Et;
    try (rewrite (Hexcl "contentSearch" Ec)); try (rewrite (Hexcl "tagSearch" Et));
    try (destruct Hs; discriminate);
    destruct (hasFactor "contentSearch" g), (hasFactor "tagSearch" g); reflexivity.
Qed.

(** ** The page on sample filters *)

Lemma buildFilter_ignores_unknown_witness :
  buildFilter sampleRuntime
    [{| factor := "pinned"; value := "" |}; {| factor := "visibility"; value := "PUBLIC" |};
     {| factor := "tagSearch"; value := "work" |}]
  = buildFilter sampleRuntime
      [{| factor := "pinned"; value := "" |}; {| factor := "tagSearch"; value := "work" |}].
Proof.
  exact (buildFilter_ignores_unknown sampleRuntime
           [{| factor := "pinned"; value := "" |}]
           [{| factor := "tagSearch"; value := "work" |}]
           {| factor := "visibility"; value := "PUBLIC" |} eq_refl).
Defined.

Lemma buildFilter_search_commutes_witness :
  buildFilter sampleRuntime
    [{| factor := "tagSearch"; value := "work" |}; {| factor := "pinned"; value := "" |}]
  = buildFilter sampleRuntime
      [{| factor := "pinned"; value := "" |}; {| factor := "tagSearch"; value := "work" |}].
Proof.
  apply (buildFilter_search_commutes sampleRuntime [] []
           {| factor := "tagSearch"; value := "work" |}
           {| factor := "pinned"; value := "" |}).
  - right. reflexivity.
  - discriminate.
Defined.

(** A list with every kind of filter. *)
Example RandomReview_sample :
  RandomReview sampleRuntime
    {| userName := "users/1"; shortcut := "s1";
       filters := [{| factor := "tagSearch"; value := "work" |};
                   {| factor := "pinned"; value := "" |};
                   {| factor := "seed"; value := "42" |};
                   {| factor := "displayTime"; value := "86400" |};
                   {| factor := "contentSearch"; value := "hello" |};
                   {| factor := "tagSearch"; value := "life" |}];
       shortcuts := [{| shortcutId := "s1"; shortcutFilter := "has_link == true" |}] |}
  = {| owner := "users/1"; filter := "has_link == true";
       oldFilter :=
         "pinned == true && display_time_after == 86400 && display_time_before == 172800"
         ++ " && content_search == [" ++ quote ++ "hello" ++ quote ++ "]"
         ++ " && tag_search == [" ++ quote ++ "work" ++ quote ++ ", "
         ++ quote ++ "life" ++ quote ++ "]";
       sort := "random:42" |}.
Proof. vm_compute. reflexivity. Qed.
End ReviewFacts.

(** * Properties of the build scripts *)

Module BuildFacts.
Import build.

(** The flags after the loop: whether each option occurs among the
    arguments. *)
Lemma parseArgs_spec (args : list string) :
  parseArgs args
  = (existsb (String.eqb "--run") args, existsb (String.eqb "--multi-arch") args).
Proof.
  unfold parseArgs.
  assert (H : forall r m,
             fold_left parseArg args (r, m)
             = (r || existsb (String.eqb "--run") args,
                m || existsb (String.eqb "--multi-arch") args)).
  { induction args as [|a args IH]; intros r m; cbn [fold_left existsb].
    - now rewrite !orb_false_r.
    - unfold parseArg at 2. rewrite (String.eqb_sym "--run" a),
        (String.eqb_sym "--multi-arch" a).
      destruct (String.eqb a "--run") eqn:Erun.
      + apply String.eqb_eq in Erun. subst a. rewrite IH. cbn.
        now rewrite !orb_true_r.
      + destruct (String.eqb a "--multi-arch"); rewrite IH; cbn;
          now rewrite ?orb_true_r, ?orb_assoc.
    }
  apply (H false false).
Qed.

Lemma existsb_In (x : string) (l : list string) :
  existsb (String.eqb x) l = true <-> In x l.
Proof.
  rewrite existsb_exists. split.
  - intros (y & Hy & E). apply String.eqb_eq in E. now subst.
  - intros H. exists x. split; [assumption | apply String.eqb_refl].
Qed.

(** Run the script symbolically: decide the status of each command met. *)
Ltac unfold_script :=
  unfold build_sh, build_sh_v0, checkPnpm, buildFrontend, buildImage, buildComplete,
    runCompose, succeeds, run, echo, exit, ret, bind, finish.

Ltac decide_statuses env :=
  cbn;
  repeat match goal with
         | |- context [Nat.eqb (env ?c) 0] =>
             let E := fresh "E" in destruct (Nat.eqb (env c) 0) eqn:E; cbn
         end.

Ltac statuses_to_facts :=
  repeat match goal with
         | H : Nat.eqb _ 0 = true |- _ => apply Nat.eqb_eq in H
         | H : Nat.eqb _ 0 = false |- _ => apply Nat.eqb_neq in H
         end.

(** X21.  [build.sh] looks at its arguments for the two options only: two
    argument lists that agree on whether [--run] occurs and on whether
    [--multi-arch] occurs give the same run, whatever their order, their
    repetitions and their other words. *)
Theorem build_sh_flags :
  forall (env : Env) (args args' : list string),
    (In "--run" args <-> In "--run" args') ->
    (In "--multi-arch" args <-> In "--multi-arch" args') ->
    build_sh env args = build_sh env args'.
Proof.
  intros env args args' Hrun Hmulti. unfold build_sh.
  rewrite !parseArgs_spec.
  assert (E1 : existsb (String.eqb "--run") args = existsb (String.eqb "--run") args').
  { apply eq_true_iff_eq. now rewrite !existsb_In. }
  assert (E2 : existsb (String.eqb "--multi-arch") args
               = existsb (String.eqb "--multi-arch") args').
  { apply eq_true_iff_eq. now rewrite !existsb_In. }
  now rewrite E1, E2.
Qed.

(** X22.  [docker compose up] is started only if [--run] was given and every
    step before it succeeded: the pnpm check, the front-end build, the image
    build of the chosen kind (with buildx available for a multi-arch build)
    and [docker compose down]. *)
Theorem compose_only_after_build :
  forall (env : Env) (args : list string),
    In docker_compose_up (commands (fst (build_sh env args))) ->
    In "--run" args
    /\ env command_v_pnpm = 0%nat /\ env cd_web = 0%nat /\ env pnpm_install = 0%nat
    /\ env pnpm_release = 0%nat /\ env cd_up = 0%nat
    /\ (if existsb (String.eqb "--multi-arch") args
        then env docker_buildx_version = 0%nat /\ env docker_buildx_build = 0%nat
        else env docker_build = 0%nat)
    /\ env docker_compose_down = 0%nat.
Proof.
  intros env args. unfold build_sh. rewrite parseArgs_spec.
  destruct (existsb (String.eqb "--run") args) eqn:Hrun;
    destruct (existsb (String.eqb "--multi-arch") args) eqn:Hmulti;
    unfold_script; decide_statuses env; statuses_to_facts;
    intros H; cbn in H; intuition (try discriminate);
    now apply existsb_In.
Qed.

(** X23.  The exit status tells how the run ended: it is 0 exactly when the
    last command started succeeded, and otherwise it is the status of that
    command, or 1 when that command was the pnpm or the buildx check.  Every
    command started before the last one succeeded, the two commands of the
    pipeline [docker buildx ls | grep -q] apart: they stand in the condition
    of an [if], and the script goes on when they fail. *)
Theorem build_sh_exit_status :
  forall (env : Env) (args : list string),
    let cmds := commands (fst (build_sh env args)) in
    let cmd := last cmds command_v_pnpm in
    (snd (build_sh env args) = 0%nat <-> env cmd = 0%nat)
    /\ (snd (build_sh env args) = env cmd
        \/ (snd (build_sh env args) = 1%nat
            /\ (cmd = command_v_pnpm \/ cmd = docker_buildx_version)))
    /\ (forall c : Cmd,
          In c (removelast cmds) ->
          env c = 0%nat \/ c = docker_buildx_ls \/ c = grep_q_memos_builder).
Proof.
  intros env args. unfold build_sh. rewrite parseArgs_spec.
  destruct (existsb (String.eqb "--run") args);
    destruct (existsb (String.eqb "--multi-arch") args);
    unfold_script; decide_statuses env; statuses_to_facts;
    (split; [split; intros; first [congruence | lia | assumption]
            | split; [first [left; congruence | right; split; auto]
                     | intros c Hc; cbn in Hc;
                       repeat (destruct Hc as [<-|Hc]; [auto|]); destruct Hc]]).
Qed.

(** X24.  The two versions of the script start the same commands and end
    with the same status when [--run] is not given and [--multi-arch], if
    given, is the first argument.  The earlier version reads the first
    argument only: with any other first argument it never starts buildx. *)
Theorem build_sh_versions :
  forall (env : Env) (args : list string),
    (~ In "--run" args ->
     (hd "" args = "--multi-arch" <-> In "--multi-arch" args) ->
     commands (fst (build_sh env args)) = commands (fst (build_sh_v0 env args))
     /\ snd (build_sh env args) = snd (build_sh_v0 env args))
    /\ (hd "" args <> "--multi-arch" ->
        ~ In docker_buildx_version (commands (fst (build_sh_v0 env args)))
        /\ ~ In docker_buildx_build (commands (fst (build_sh_v0 env args)))).
Proof.
  intros env args. split.
  - intros Hrun Hfirst. unfold build_sh, build_sh_v0. rewrite parseArgs_spec.
    assert (E1 : existsb (String.eqb "--run") args = false).
    { destruct (existsb (String.eqb "--run") args) eqn:E; [|reflexivity].
      apply existsb_In in E. contradiction. }
    assert (E2 : existsb (String.eqb "--multi-arch") args
                 = String.eqb (hd "" args) "--multi-arch").
    { apply eq_true_iff_eq. rewrite existsb_In, String.eqb_eq. tauto. }
    rewrite E1, E2.
    destruct (String.eqb (hd "" args) "--multi-arch");
      unfold_script; decide_statuses env; split; reflexivity.
  - intros Hfirst. apply String.eqb_neq in Hfirst.
    unfold build_sh_v0. rewrite Hfirst.
    unfold_script; decide_statuses env; split; intros H; cbn in H;
      intuition discriminate.
Qed.

(** ** The scripts on sample runs *)

Lemma build_sh_flags_witness :
  build_sh (failingOnly [grep_q_memos_builder])
    ["--run"; "-v"; "--multi-arch"; "--run"]
  = build_sh (failingOnly [grep_q_memos_builder]) ["--multi-arch"; "--run"].
Proof.
  apply build_sh_flags; cbn; tauto.
Defined.

Lemma compose_only_after_build_witness :
  failingOnly [grep_q_memos_builder] docker_buildx_build = 0%nat
  /\ failingOnly [grep_q_memos_builder] docker_compose_down = 0%nat.
Proof.
  assert (H : In docker_compose_up
                (commands (fst (build_sh (failingOnly [grep_q_memos_builder])
                                  ["--multi-arch"; "--run"]))))
    by (vm_compute; tauto).
  destruct (compose_only_after_build _ _ H)
    as (_ & _ & _ & _ & _ & _ & [_ Hbuild] & Hdown).
  split; assumption.
Defined.

Lemma build_sh_versions_witness :
  commands (fst (build_sh (failingOnly []) ["--multi-arch"; "-v"]))
  = commands (fst (build_sh_v0 (failingOnly []) ["--multi-arch"; "-v"]))
  /\ ~ In docker_buildx_build
          (commands (fst (build_sh_v0 (failingOnly []) ["-v"; "--multi-arch"]))).
Proof.
  destruct (build_sh_versions (failingOnly []) ["--multi-arch"; "-v"]) as [Hsame _].
  destruct (build_sh_versions (failingOnly []) ["-v"; "--multi-arch"]) as [_ Hold].
  split.
  - apply Hsame.
    + cbn. intros [H|[H|[]]]; discriminate.
    + cbn. tauto.
  - apply Hold. cbn. discriminate.
Defined.

Lemma build_sh_exit_status_witness :
  (snd (build_sh (failingOnly [grep_q_memos_builder; docker_buildx_inspect])
          ["--multi-arch"]) = 0%nat
   <-> failingOnly [grep_q_memos_builder; docker_buildx_inspect]
         docker_buildx_inspect = 0%nat)
  /\ (failingOnly [grep_q_memos_builder; docker_buildx_inspect]
        docker_buildx_create = 0%nat
      \/ docker_buildx_create = docker_buildx_ls
      \/ docker_buildx_create = grep_q_memos_builder).
Proof.
  destruct (build_sh_exit_status
              (failingOnly [grep_q_memos_builder; docker_buildx_inspect])
              ["--multi-arch"]) as (Hzero & _ & Hbefore).
  split.
  - exact Hzero.
  - apply Hbefore. vm_compute. tauto.
Defined.

(** A failed front-end build stops the script before any image is built. *)
Example build_sh_stops_at_failure :
  commands (fst (build_sh (failingOnly [pnpm_release]) ["--run"]))
  = [command_v_pnpm; cd_web; pnpm_install; pnpm_release]
  /\ snd (build_sh (failingOnly [pnpm_release]) ["--run"]) = 1%nat.
Proof. vm_compute. split; reflexivity. Qed.

(** A missing builder does not stop the script: [grep -q] fails in the
    condition of the [if], the builder is created and the build goes on. *)
Example build_sh_goes_on_after_condition :
  commands (fst (build_sh (failingOnly [docker_buildx_ls; grep_q_memos_builder])
                   ["--multi-arch"]))
  = [command_v_pnpm; cd_web; pnpm_install; pnpm_release; cd_up;
     docker_buildx_version; docker_buildx_ls; grep_q_memos_builder;
     docker_buildx_create; docker_buildx_inspect; docker_buildx_build]
  /\ snd (build_sh (failingOnly [docker_buildx_ls; grep_q_memos_builder])
            ["--multi-arch"]) = 0%nat.
Proof. vm_compute. split; reflexivity. Qed.
End BuildFacts.
